(** * chart-finder-automation: the credits and video-matching pipeline

    A shallow embedding of the two core scripts of the repository,
    [scripts/trigger-manus-agent.js] and [scripts/get-youtube-links.js],
    of the stages around them (the chart scraper, the loader of the page
    generator, the runner of the whole pipeline) and of the player of the
    generated page, and the properties of the pipeline checked against it.

    Conventions of the embedding:
    - JavaScript values that come out of [JSON.parse] are the inductive
      type [Val]; [undefined] is one more constructor of it.
    - Code that can throw returns [Exc A]; a [try]/[catch] is a match on it.
    - The remote services (task API, search API), the clock and the file
      system are explicit arguments and explicit state.
    - Console output is not recorded, but the template literals that are
      logged are evaluated, since their evaluation can throw.
    - Built-in functions whose details no property depends on
      ([String.prototype.toLowerCase], [String.prototype.trim], the HTML
      parser) are parameters: the properties hold for every function put
      in their place. *)

From Stdlib Require Import ZArith Ascii String List Bool Lia.
From stdpp Require Import base option list strings pretty gmap.

Set Warnings "-register-all".
Local Open Scope string_scope.
Local Open Scope list_scope.
Local Open Scope Z_scope.

(** ** JavaScript values and exceptions *)

Module Js.

(** Values as [JSON.parse] builds them.  Numbers are modelled by integers:
    the scripts only test them for truthiness and print them.  An object
    is the list of its own properties in enumeration order. *)
Inductive Val : Type :=
  | VUndefined
  | VNull
  | VBool (b : bool)
  | VNum (n : Z)
  | VStr (s : string)
  | VArr (items : list Val)
  | VObj (props : list (string * Val)).

Definition Obj : Type := list (string * Val).

(** A thrown value: every [throw] of the two scripts throws an [Error]
    with a message, and the engine throws [TypeError]s. *)
Inductive JsError : Type :=
  | Error (message : string)
  | TypeError (message : string).

Inductive Exc (A : Type) : Type :=
  | Ok (a : A)
  | Throw (e : JsError).
Arguments Ok {A} a.
Arguments Throw {A} e.

#[export] Instance exc_ret : MRet Exc := fun A a => Ok a.

#[export] Instance exc_bind : MBind Exc := fun A B k m =>
  match m with
  | Ok a => k a
  | Throw e => Throw e
  end.

(** [map] with a callback that may throw: the first exception aborts. *)
Fixpoint mapM {A B} (f : A -> Exc B) (l : list A) : Exc (list B) :=
  match l with
  | [] => Ok []
  | x :: rest => y ← f x; ys ← mapM f rest; Ok (y :: ys)
  end.

(** Own-property lookup in an object. *)
Fixpoint lookupProp (key : string) (props : Obj) : option Val :=
  match props with
  | [] => None
  | (k, v) :: rest => if String.eqb k key then Some v else lookupProp key rest
  end.

(** Property assignment [o.key = v]: an existing property keeps its place. *)
Fixpoint setProp (key : string) (v : Val) (props : Obj) : Obj :=
  match props with
  | [] => [(key, v)]
  | (k, w) :: rest =>
      if String.eqb k key then (k, v) :: rest else (k, w) :: setProp key v rest
  end.

(** Property read [v.key] for a property name that no prototype defines
    ([rank], [artist], [title], [credits], [role], [people]): it throws on
    [null] and [undefined], is [undefined] on other primitives and on
    arrays, and looks the key up on objects. *)
Definition getProp (v : Val) (key : string) : Exc Val :=
  match v with
  | VUndefined =>
      Throw (TypeError ("Cannot read properties of undefined (reading '"
                          +:+ key +:+ "')"))
  | VNull =>
      Throw (TypeError ("Cannot read properties of null (reading '"
                          +:+ key +:+ "')"))
  | VObj props => Ok (default VUndefined (lookupProp key props))
  | _ => Ok VUndefined
  end.

(** ToBoolean. *)
Definition truthy (v : Val) : bool :=
  match v with
  | VUndefined | VNull => false
  | VBool b => b
  | VNum n => negb (n =? 0)
  | VStr s => negb (String.eqb s "")
  | VArr _ | VObj _ => true
  end.

Definition isString (v : Val) : bool :=
  match v with VStr _ => true | _ => false end.

(** ** Strings *)

(** [String.prototype.toLowerCase] is a parameter of the model: the
    scripts are verified for every case folding, whatever it does to the
    letters of any alphabet. *)
Class CaseFolding : Type := { toLowerCase : string -> string }.

(** [s.includes(sub)]: [sub] occurs in [s] at some position. *)
Fixpoint includes (s sub : string) : bool :=
  if String.prefix sub s then true
  else match s with
       | EmptyString => false
       | String _ rest => includes rest sub
       end.

(** The method call [v.toLowerCase()] on an arbitrary value. *)
Definition callToLowerCase `{CaseFolding} (v : Val) : Exc string :=
  match v with
  | VStr s => Ok (toLowerCase s)
  | VUndefined | VNull => _ ← getProp v "toLowerCase"; Ok ""
  | _ => Throw (TypeError "toLowerCase is not a function")
  end.

(** ToString, as a template literal applies it to a value that came out of
    [JSON.parse].  A plain object prints as [[object Object]] through
    [Object.prototype.toString]; when it has an own [toString] property,
    that property shadows the method, is not callable, and the conversion
    throws.  An array prints its elements joined by commas, [null] and
    [undefined] elements as the empty string. *)
Fixpoint toStringVal (v : Val) : Exc string :=
  match v with
  | VUndefined => Ok "undefined"
  | VNull => Ok "null"
  | VBool b => Ok (if b then "true" else "false")
  | VNum n => Ok (pretty n)
  | VStr s => Ok s
  | VArr items =>
      (fix join (first : bool) (l : list Val) : Exc string :=
         match l with
         | [] => Ok ""
         | x :: rest =>
             s ← match x with
                 | VUndefined | VNull => Ok ""
                 | _ => toStringVal x
                 end;
             r ← join false rest;
             Ok ((if first then "" else ",") +:+ s +:+ r)
         end) true items
  | VObj props =>
      match lookupProp "toString" props with
      | Some _ => Throw (TypeError "Cannot convert object to primitive value")
      | None => Ok "[object Object]"
      end
  end.

End Js.
Import Js.

(** ** The data directory *)

Module Fs.

(** [JSON.parse(JSON.stringify(v))]: a property whose value is
    [undefined] is left out, an [undefined] element of an array becomes
    [null]. *)
Fixpoint jsonRoundTrip (v : Val) : Val :=
  match v with
  | VArr items =>
      VArr ((fix elements (l : list Val) : list Val :=
               match l with
               | [] => []
               | VUndefined :: rest => VNull :: elements rest
               | x :: rest => jsonRoundTrip x :: elements rest
               end) items)
  | VObj props =>
      VObj ((fix properties (l : Obj) : Obj :=
               match l with
               | [] => []
               | (_, VUndefined) :: rest => properties rest
               | (k, x) :: rest => (k, jsonRoundTrip x) :: properties rest
               end) props)
  | _ => v
  end.

(** The value holds no [undefined]. *)
Fixpoint pureJson (v : Val) : bool :=
  match v with
  | VUndefined => false
  | VArr items =>
      (fix elements (l : list Val) : bool :=
         match l with
         | [] => true
         | x :: rest => pureJson x && elements rest
         end) items
  | VObj props =>
      (fix properties (l : Obj) : bool :=
         match l with
         | [] => true
         | (_, x) :: rest => pureJson x && properties rest
         end) props
  | _ => true
  end.

(** The files of the data directory.  A file holds the text that
    [JSON.stringify] wrote; it is modelled by the document that
    [JSON.parse] reads back from that text. *)
Definition Files : Type := gmap string Val.

(** [path.join(DATA_DIR, name)]. *)
Definition pathJoin (dir name : string) : string := dir +:+ "/" +:+ name.

(** [fs.writeFile(path, JSON.stringify(doc))]: creates or replaces.  A
    write that the operating system refuses is outside the model. *)
Definition writeFile (path : string) (doc : Val) (files : Files) : Files :=
  <[path := jsonRoundTrip doc]> files.

(** [JSON.parse(await fs.readFile(path))]: rejects when the file is absent. *)
Definition readFile (path : string) (files : Files) : Exc Val :=
  match files !! path with
  | Some doc => Ok doc
  | None => Throw (Error ("ENOENT: no such file or directory, open '" +:+ path +:+ "'"))
  end.

(** [iso.split('T')[0]]: the text before the first [T]. *)
Fixpoint beforeT (iso : string) : string :=
  match iso with
  | EmptyString => EmptyString
  | String c rest =>
      if Ascii.eqb c "T"%char then EmptyString else String c (beforeT rest)
  end.

(** [value.length] as it is read for a log line: it throws on [null] and
    [undefined]. *)
Definition readLength (v : Val) : Exc Val :=
  match v with
  | VArr items => Ok (VNum (Z.of_nat (length items)))
  | VStr s => Ok (VNum (Z.of_nat (String.length s)))
  | _ => getProp v "length"
  end.

End Fs.
Import Fs.

(** ** Video matching: [scripts/get-youtube-links.js] *)

Module YouTube.

(** One item of [response.data.items].  [oid] is the identity of the
    JavaScript object: [===] on objects, and so [Array.prototype.indexOf],
    compares identities, not contents. *)
Record Video : Type := mkVideo {
  oid : nat;
  id_videoId : string;
  snippet_title : string;
  snippet_channelTitle : string;
  snippet_publishedAt : string;
  snippet_thumbnails : Val
}.

Definition sameObject (v w : Video) : bool := Nat.eqb (oid v) (oid w).

(** [videos.indexOf(video)], counting from [i]; [-1] when absent. *)
Fixpoint indexOfFrom (i : Z) (videos : list Video) (video : Video) : Z :=
  match videos with
  | [] => -1
  | v :: rest =>
      if sameObject v video then i else indexOfFrom (i + 1) rest video
  end.

Definition indexOf (videos : list Video) (video : Video) : Z :=
  indexOfFrom 0 videos video.

(** The items of a parsed response are pairwise distinct objects. *)
Definition distinctObjects (videos : list Video) : Prop :=
  NoDup (map oid videos).

Definition excludeKeywords : list string :=
  ["cover"; "remix"; "live"; "acoustic"; "karaoke"; "instrumental"].

Definition officialKeywords (artistLower : string) : list string :=
  ["vevo"; "records"; "music"; "official"; artistLower].

(** [for (const keyword of keywords) { if (text.includes(keyword))
    { score += delta; break; } }] *)
Fixpoint forKeywordBreak (keywords : list string) (text : string)
    (delta score : Z) : Z :=
  match keywords with
  | [] => score
  | keyword :: rest =>
      if includes text keyword then score + delta
      else forKeywordBreak rest text delta score
  end.

(** [videoTitle.includes(artist.toLowerCase()) &&
    videoTitle.includes(title.toLowerCase())]; [&&] evaluates its right
    operand only when the left one holds. *)
Definition titleAccurate `{CaseFolding}
    (videoTitle : string) (artist title : Val) : Exc bool :=
  artistLower ← callToLowerCase artist;
  if includes videoTitle artistLower
  then titleLower ← callToLowerCase title; Ok (includes videoTitle titleLower)
  else Ok false.

(** The body of the [for (const video of videos)] loop up to the update of
    the running best: the score of [video].  [official] is the array
    built before the loop from [artist.toLowerCase()]. *)
Definition videoScore `{CaseFolding}
    (videos : list Video) (official : list string)
    (artist title : Val) (video : Video) : Exc Z :=
  let score := 0 in
  let channelTitle := toLowerCase (snippet_channelTitle video) in
  let videoTitle := toLowerCase (snippet_title video) in
  let score := forKeywordBreak official channelTitle 10 score in
  accurate ← titleAccurate videoTitle artist title;
  let score := if (accurate : bool) then score + 5 else score in
  let score :=
    if includes videoTitle "official" || includes videoTitle "music video"
    then score + 3 else score in
  let score := forKeywordBreak excludeKeywords videoTitle (-5) score in
  let score := if indexOf videos video =? 0 then score + 2 else score in
  Ok score.

(** The loop over the remaining candidates, with the running best. *)
Fixpoint bestLoop `{CaseFolding} (videos : list Video) (official : list string)
    (artist title : Val) (remaining : list Video)
    (bestVideo : option Video) (bestScore : Z) : Exc (option Video) :=
  match remaining with
  | [] => Ok bestVideo
  | video :: rest =>
      score ← videoScore videos official artist title video;
      if score >? bestScore
      then bestLoop videos official artist title rest (Some video) score
      else bestLoop videos official artist title rest bestVideo bestScore
  end.

Definition findBestVideo `{CaseFolding}
    (videos : list Video) (artist title : Val)
    : Exc (option Video) :=
  artistLower ← callToLowerCase artist;
  bestLoop videos (officialKeywords artistLower) artist title videos None 0.

(** What [youtube.search.list] does with a request: it rejects, or it
    answers with [response.data.items].  A response of another shape makes
    the code that follows throw inside the same [try], which the same
    [catch] handles as it handles a rejection. *)
Inductive SearchReply : Type :=
  | SearchRejected (e : JsError)
  | SearchItems (videos : list Video).

(** The search provider: the reply to the [n]-th request of the run, for
    the query text [q]. *)
Definition SearchApi : Type := nat -> string -> SearchReply.

(** The object returned for the selected video. *)
Definition videoMatch (v : Video) : Val :=
  VObj [ ("videoId", VStr (id_videoId v));
         ("url", VStr ("https://www.youtube.com/watch?v=" +:+ id_videoId v));
         ("title", VStr (snippet_title v));
         ("channelTitle", VStr (snippet_channelTitle v));
         ("publishedAt", VStr (snippet_publishedAt v));
         ("thumbnails", snippet_thumbnails v) ].

(** [`${artist} ${title}`] *)
Definition queryOf (artist title : Val) : Exc string :=
  a ← toStringVal artist;
  t ← toStringVal title;
  Ok (a +:+ " " +:+ t).

(** The [try] block of [searchYouTubeVideo]. *)
Definition searchAttempt `{CaseFolding}
    (reply : SearchReply) (artist title : Val) : Exc Val :=
  match reply with
  | SearchRejected e => Throw e
  | SearchItems videos =>
      if (length videos =? 0)%nat then Ok VNull
      else
        officialVideo ← findBestVideo videos artist title;
        match officialVideo with
        | Some v => Ok (videoMatch v)
        | None => Ok VNull
        end
  end.

(** [searchYouTubeVideo]: the query is built before the [try]; whatever
    the [try] block throws is caught and turned into [null].  The second
    component is the number of requests sent so far. *)
Definition searchYouTubeVideo `{CaseFolding} (api : SearchApi) (calls : nat)
    (artist title : Val) : Exc Val * nat :=
  match queryOf artist title with
  | Throw e => (Throw e, calls)
  | Ok query =>
      match searchAttempt (api calls query) artist title with
      | Ok found => (Ok found, S calls)
      | Throw _ => (Ok VNull, S calls)
      end
  end.

(** The own enumerable properties that [{...item}] copies. *)
Definition spreadProps (item : Val) : Obj :=
  match item with
  | VObj props => props
  | VArr items => imap (fun i x => (pretty i, x)) items
  | VStr s =>
      imap (fun i c => (pretty i, VStr (String c EmptyString)))
           (list_ascii_of_string s)
  | _ => []
  end.

(** [{...item, youtube: y}] *)
Definition withYoutube (item y : Val) : Val :=
  VObj (setProp "youtube" y (spreadProps item)).

(** The text of the progress line, built before the [try]. *)
Definition progressLine (item : Val) (total : nat) : Exc string :=
  rank ← getProp item "rank";
  rankText ← toStringVal rank;
  artist ← getProp item "artist";
  artistText ← toStringVal artist;
  title ← getProp item "title";
  titleText ← toStringVal title;
  Ok ("Processing " +:+ rankText +:+ "/" +:+ pretty total +:+ ": "
        +:+ artistText +:+ " - " +:+ titleText).

(** The state of one run of [collectAllYouTubeLinks]. *)
Record Run : Type := mkRun {
  results : list Val;
  apiCalls : nat;
  sleptMs : Z
}.

Definition delay : Z := 1000.

(** The body of the [try] of the loop, for entry [i] of [total]. *)
Definition processItem `{CaseFolding}
    (api : SearchApi) (total i : nat) (item : Val)
    (st : Run) : Exc Run * nat :=
  match getProp item "artist", getProp item "title" with
  | Ok artist, Ok title =>
      match searchYouTubeVideo api (apiCalls st) artist title with
      | (Ok youtubeData, calls) =>
          let pushed := results st ++ [withYoutube item youtubeData] in
          let slept :=
            if (Z.of_nat i <? Z.of_nat total - 1) then sleptMs st + delay
            else sleptMs st in
          (Ok (mkRun pushed calls slept), calls)
      | (Throw e, calls) => (Throw e, calls)
      end
  | Throw e, _ | _, Throw e => (Throw e, apiCalls st)
  end.

(** The [for] loop from entry [i] on. *)
Fixpoint collectLoop `{CaseFolding}
    (api : SearchApi) (total : nat) (remaining : list Val)
    (i : nat) (st : Run) : Exc Run :=
  match remaining with
  | [] => Ok st
  | item :: rest =>
      _ ← progressLine item total;
      match processItem api total i item st with
      | (Ok st', _) => collectLoop api total rest (S i) st'
      | (Throw _, calls) =>
          collectLoop api total rest (S i)
            (mkRun (results st ++ [withYoutube item VNull]) calls (sleptMs st))
      end
  end.

Definition collectAllYouTubeLinks `{CaseFolding}
    (api : SearchApi) (creditsData : list Val)
    : Exc Run :=
  collectLoop api (length creditsData) creditsData 0 (mkRun [] 0 0).

(** [saveYouTubeData]: [today] and [now] are the two readings of the clock,
    as ISO-8601 texts.  Returns the path of the dated file. *)
Definition saveYouTubeData (dataDir today now : string) (youtubeData : list Val)
    (files : Files) : string * Files :=
  let timestamp := beforeT today in
  let filename := "youtube-" +:+ timestamp +:+ ".json" in
  let filepath := pathJoin dataDir filename in
  let dataToSave :=
    VObj [ ("timestamp", VStr now); ("source", VStr "youtube-api-v3");
           ("data", VArr youtubeData) ] in
  let files := writeFile filepath dataToSave files in
  let latestPath := pathJoin dataDir "latest-youtube.json" in
  let files := writeFile latestPath dataToSave files in
  (filepath, files).

(** [loadLatestCreditsData]: any failure of the [try] block is replaced by
    one error. *)
Definition loadLatestCreditsData (dataDir : string) (files : Files) : Exc Val :=
  let creditsPath := pathJoin dataDir "latest-credits.json" in
  let attempt : Exc Val :=
    creditsData ← readFile creditsPath files;
    data ← getProp creditsData "data";
    _ ← readLength data;
    Ok data in
  match attempt with
  | Ok data => Ok data
  | Throw _ => Throw (Error "Credits data not found. Run trigger-manus-agent.js first.")
  end.

End YouTube.

(** ** Credits collection: [scripts/trigger-manus-agent.js] *)

Module Manus.

(** What [manusClient.get] does with one status request: it rejects, or
    it resolves with [response.data]. *)
Inductive PollReply : Type :=
  | PollRejected (e : JsError)
  | PollData (task : Val).

(** The remote agent: the reply to the [n]-th status request for a task. *)
Definition TaskApi : Type := string -> nat -> PollReply.

(** [v === s] for a string literal [s]. *)
Definition strictEqStr (v : Val) (s : string) : bool :=
  match v with
  | VStr x => String.eqb x s
  | _ => false
  end.

Definition timeoutMessage : string :=
  "Task timeout: Credits collection took too long".

Definition failedMessage (remote : string) : string :=
  "Task failed: " +:+ remote.

(** The part of the loop body between the request and the wait:
    [Some result] when the function returns, [None] when it goes on. *)
Definition inspectReply (reply : PollReply) : Exc (option Val) :=
  match reply with
  | PollRejected e => Throw e
  | PollData task =>
      status ← getProp task "status";
      _ ← toStringVal status;
      if strictEqStr status "completed" then
        result ← getProp task "result";
        Ok (Some result)
      else if strictEqStr status "failed" then
        error ← getProp task "error";
        remote ← toStringVal error;
        Throw (Error (failedMessage remote))
      else Ok None
  end.

(** The state of one wait: status requests sent, value of [attempts],
    time spent in [setTimeout]. *)
Record Wait : Type := mkWait {
  polls : nat;
  attempts : nat;
  waitedMs : Z
}.

(** [while (attempts < maxAttempts) { ... }] followed by the final
    [throw]; [remaining] is [maxAttempts - attempts].  The [catch] of the
    loop body logs and throws the same error again. *)
Fixpoint pollLoop (replies : nat -> PollReply) (remaining : nat) (st : Wait)
    : Exc Val * Wait :=
  match remaining with
  | O => (Throw (Error timeoutMessage), st)
  | S remaining' =>
      let asked := mkWait (S (polls st)) (attempts st) (waitedMs st) in
      match inspectReply (replies (polls st)) with
      | Throw e => (Throw e, asked)
      | Ok (Some result) => (Ok result, asked)
      | Ok None =>
          pollLoop replies remaining'
            (mkWait (S (polls st)) (S (attempts st)) (waitedMs st + 30000))
      end
  end.

Definition maxAttempts : nat := 60.

Definition waitForTaskCompletion (api : TaskApi) (taskId : string)
    : Exc Val * Wait :=
  pollLoop (api taskId) maxAttempts (mkWait 0 0 0).

(** [o.key = v] on a value that is known to be an object. *)
Definition assign (item : Val) (key : string) (v : Val) : Val :=
  match item with
  | VObj props => VObj (setProp key v props)
  | _ => item
  end.

(** The predicate of [item.credits.filter(...)]. *)
Definition keepCredit (credit : Val) : Exc bool :=
  role ← getProp credit "role";
  if negb (truthy role) then Ok false
  else
    people ← getProp credit "people";
    Ok (truthy people && isString role && isString people).

(** [filter] with a predicate that may throw. *)
Fixpoint filterM (p : Val -> Exc bool) (l : list Val) : Exc (list Val) :=
  match l with
  | [] => Ok []
  | x :: rest =>
      keep ← p x;
      kept ← filterM p rest;
      Ok (if (keep : bool) then x :: kept else kept)
  end.

(** [!item.rank || !item.artist || !item.title] *)
Definition missingRequired (item : Val) : Exc bool :=
  rank ← getProp item "rank";
  if negb (truthy rank) then Ok true
  else
    artist ← getProp item "artist";
    if negb (truthy artist) then Ok true
    else
      title ← getProp item "title";
      Ok (negb (truthy title)).

(** [item.credits = item.credits.filter(...)] for the array [lines]. *)
Definition cleanCredits (item : Val) (lines : list Val) : Exc Val :=
  kept ← filterM keepCredit lines;
  Ok (assign item "credits" (VArr kept)).

(** The callback of [creditsData.map(...)]; it returns [null] for an item
    it drops.  The warning about a [credits] that is not an array prints
    the artist and the title. *)
Definition cleanItem (item : Val) : Exc Val :=
  missing ← missingRequired item;
  if (missing : bool) then Ok VNull
  else
    credits ← getProp item "credits";
    match credits with
    | VArr lines => cleanCredits item lines
    | _ =>
        artist ← getProp item "artist";
        _ ← toStringVal artist;
        title ← getProp item "title";
        _ ← toStringVal title;
        cleanCredits (assign item "credits" (VArr [])) []
    end.

(** [item !== null] *)
Definition notNull (item : Val) : bool :=
  match item with VNull => false | _ => true end.

Definition validateAndCleanCredits (creditsData : Val) : Exc (list Val) :=
  match creditsData with
  | VArr items =>
      mapped ← mapM cleanItem items;
      Ok (List.filter notNull mapped)
  | _ => Throw (Error "Credits data must be an array")
  end.

(** [saveCreditsData]: [today] and [now] are the two readings of the
    clock, as ISO-8601 texts.  Returns the path of the dated file. *)
Definition saveCreditsData (dataDir today now : string) (creditsData : list Val)
    (files : Files) : string * Files :=
  let timestamp := beforeT today in
  let filename := "credits-" +:+ timestamp +:+ ".json" in
  let filepath := pathJoin dataDir filename in
  let dataToSave :=
    VObj [ ("timestamp", VStr now); ("source", VStr "manus-agent-tidal");
           ("data", VArr creditsData) ] in
  let files := writeFile filepath dataToSave files in
  let latestPath := pathJoin dataDir "latest-credits.json" in
  let files := writeFile latestPath dataToSave files in
  (filepath, files).

(** [loadLatestChartData]: any failure of the [try] block, the logging of
    the number of entries included, is replaced by one error. *)
Definition loadLatestChartData (dataDir : string) (files : Files) : Exc Val :=
  let chartPath := pathJoin dataDir "latest-chart.json" in
  let attempt : Exc Val :=
    chartData ← readFile chartPath files;
    data ← getProp chartData "data";
    entries ← readLength data;
    _ ← toStringVal entries;
    Ok data in
  match attempt with
  | Ok data => Ok data
  | Throw _ => Throw (Error "Chart data not found. Run scrape-kworb.js first.")
  end.

(** *** The request for the credits and the whole stage *)

Definition nl : string := String (ascii_of_nat 10) EmptyString.
Definition dq : string := String (ascii_of_nat 34) EmptyString.

(** The fixed parts of the prompt, between its placeholders. *)
Definition promptIntro : string :=
  nl +:+ "다음 글로벌 Spotify 주간 차트 1위부터 ".

Definition promptList : string :=
  "위까지 각 곡의 TIDAL 크레딧 정보를 수집해주세요." +:+
  nl +:+ nl +:+ "차트 목록:" +:+ nl.

Definition promptFormat : string :=
  nl +:+ nl +:+
  "각 곡에 대해 다음 형식으로 크레딧 정보를 수집해주세요:" +:+
  nl +:+ nl +:+ "{" +:+ nl +:+ "    rank: ".

Definition promptArtist : string :=
  "," +:+ nl +:+ "    artist: " +:+ dq.

Definition promptTitle : string :=
  dq +:+ "," +:+ nl +:+ "    title: " +:+ dq.

Definition promptRest : string :=
  dq +:+ "," +:+ nl +:+ "    album: " +:+ dq +:+ "앨범명" +:+ dq +:+
  "," +:+ nl +:+ "    credits: [" +:+ nl +:+ "        { role: " +:+ dq +:+
  "PRODUCER" +:+ dq +:+ ", people: " +:+ dq +:+
  "프로듀서1, 프로듀서2" +:+ dq +:+ " }," +:+ nl +:+
  "        { role: " +:+ dq +:+ "COMPOSER" +:+ dq +:+ ", people: " +:+ dq +:+
  "작곡가1, 작곡가2" +:+ dq +:+ " }," +:+ nl +:+ "        { role: " +:+
  dq +:+ "LYRICIST" +:+ dq +:+ ", people: " +:+ dq +:+
  "작사가1, 작사가2" +:+ dq +:+ " }," +:+ nl +:+ "        { role: " +:+
  dq +:+ "MASTERING ENGINEER" +:+ dq +:+ ", people: " +:+ dq +:+
  "마스터링 엔지니어" +:+ dq +:+ " }," +:+ nl +:+
  "        { role: " +:+ dq +:+ "MIXING ENGINEER" +:+ dq +:+ ", people: " +:+
  dq +:+ "믹싱 엔지니어" +:+ dq +:+ " }," +:+ nl +:+
  "        // 기타 모든 크레딧 정보..." +:+ nl +:+ "    ]" +:+
  nl +:+ "}" +:+ nl +:+ nl +:+
  "TIDAL에서 각 곡을 검색하여 상세한 크레딧 정보를 수집해주세요. " +:+
  nl +:+ "결과는 JSON 배열 형태로 제공해주세요." +:+ nl.

(** [`${item.rank}위. ${item.artist} - ${item.title}`] *)
Definition chartLine (item : Val) : Exc string :=
  rank ← getProp item "rank";
  rankText ← toStringVal rank;
  artist ← getProp item "artist";
  artistText ← toStringVal artist;
  title ← getProp item "title";
  titleText ← toStringVal title;
  Ok (rankText +:+ "위. " +:+ artistText +:+ " - " +:+ titleText).

(** [parts.join(sep)] on an array of strings. *)
Fixpoint joinWith (sep : string) (parts : list string) : string :=
  match parts with
  | [] => EmptyString
  | [part] => part
  | part :: rest => part +:+ sep +:+ joinWith sep rest
  end.

(** [chartData[0]] *)
Definition firstOf (items : list Val) : Val :=
  match items with
  | first :: _ => first
  | [] => VUndefined
  end.

(** The template literal of the prompt; its placeholders are evaluated
    from left to right. *)
Definition promptFor (chartData : Val) : Exc string :=
  count ← readLength chartData;
  countText ← toStringVal count;
  match chartData with
  | VArr items =>
      lines ← mapM chartLine items;
      rank ← getProp (firstOf items) "rank";
      rankText ← toStringVal rank;
      artist ← getProp (firstOf items) "artist";
      artistText ← toStringVal artist;
      title ← getProp (firstOf items) "title";
      titleText ← toStringVal title;
      Ok (promptIntro +:+ countText +:+ promptList +:+ joinWith nl lines
            +:+ promptFormat +:+ rankText +:+ promptArtist +:+ artistText
            +:+ promptTitle +:+ titleText +:+ promptRest)
  | _ => Throw (TypeError "chartData.map is not a function")
  end.

(** What [manusClient.post] does with the request: it rejects, or it
    resolves with [response.data]. *)
Inductive PostReply : Type :=
  | PostRejected (e : JsError)
  | PostData (body : Val).

(** The remote agent: the reply to the task request with a given prompt. *)
Definition PostApi : Type := string -> PostReply.

(** [requestCreditsCollection]: the prompt is built before the [try]; the
    [catch] logs and throws the same error again.  The second component
    lists the prompts of the requests that were sent. *)
Definition requestCreditsCollection (api : PostApi) (chartData : Val)
    : Exc Val * list string :=
  match promptFor chartData with
  | Throw e => (Throw e, [])
  | Ok prompt =>
      let attempt : Exc Val :=
        match api prompt with
        | PostRejected e => Throw e
        | PostData body =>
            taskId ← getProp body "task_id";
            _ ← toStringVal taskId;
            Ok taskId
        end in
      (attempt, [prompt])
  end.

(** How a [main] ends: it returns, it calls [process.exit], or its
    promise is rejected. *)
Inductive Outcome (A : Type) : Type :=
  | Returned (a : A)
  | Exited (code : Z)
  | Rejected (e : JsError).
Arguments Returned {A} a.
Arguments Exited {A} code.
Arguments Rejected {A} e.

(** The [try] block of [main]: the five steps in a row. *)
Definition mainSteps (dataDir today now : string) (post : PostApi)
    (tasks : TaskApi) (files : Files) : Exc (list Val * Files) :=
  chartData ← loadLatestChartData dataDir files;
  taskId ← (requestCreditsCollection post chartData).1;
  taskText ← toStringVal taskId;
  creditsResult ← (waitForTaskCompletion tasks taskText).1;
  cleanedCredits ← validateAndCleanCredits creditsResult;
  Ok (cleanedCredits,
      (saveCreditsData dataDir today now cleanedCredits files).2).

(** [main]: [apiKey] is [MANUS_API_KEY], [None] when the variable is not
    set. *)
Definition main (apiKey : option string) (dataDir today now : string)
    (post : PostApi) (tasks : TaskApi) (files : Files)
    : Outcome (list Val) * Files :=
  if negb (truthy (from_option VStr VUndefined apiKey)) then
    (Rejected (Error "MANUS_API_KEY environment variable is required"), files)
  else
    match mainSteps dataDir today now post tasks files with
    | Ok (cleanedCredits, written) => (Returned cleanedCredits, written)
    | Throw _ => (Exited 1, files)
    end.

End Manus.

(** ** The reader of the video snapshot: [scripts/generate-html.js] *)

Module GenerateHtml.

Definition loadLatestYouTubeData (dataDir : string) (files : Files) : Exc Val :=
  let youtubePath := pathJoin dataDir "latest-youtube.json" in
  let attempt : Exc Val :=
    youtubeData ← readFile youtubePath files;
    data ← getProp youtubeData "data";
    _ ← readLength data;
    Ok data in
  match attempt with
  | Ok data => Ok data
  | Throw _ => Throw (Error "YouTube data not found. Run get-youtube-links.js first.")
  end.

End GenerateHtml.

(** ** The chart scraper: [scripts/scrape-kworb.js] *)

Module Kworb.

Definition KWORB_URL : string :=
  "https://kworb.net/spotify/country/global_weekly.html".

(** [saveChartData]: [range] is [CHART_RANGE]; [today] and [now] are the
    two readings of the clock.  Returns the path of the dated file. *)
Definition saveChartData (dataDir : string) (range : Z) (today now : string)
    (chartData : list Val) (files : Files) : string * Files :=
  let timestamp := beforeT today in
  let filename := "chart-" +:+ timestamp +:+ ".json" in
  let filepath := pathJoin dataDir filename in
  let dataToSave :=
    VObj [ ("timestamp", VStr now); ("source", VStr KWORB_URL);
           ("range", VNum range); ("data", VArr chartData) ] in
  let files := writeFile filepath dataToSave files in
  let latestPath := pathJoin dataDir "latest-chart.json" in
  let files := writeFile latestPath dataToSave files in
  (filepath, files).

(** *** The rows of the chart page *)

(** The text that follows the prefix [p] in [s], when [s] starts with [p]. *)
Fixpoint stripPrefix (p s : string) : option string :=
  match p, s with
  | EmptyString, _ => Some s
  | String a p', String b s' => if Ascii.eqb a b then stripPrefix p' s' else None
  | String _ _, EmptyString => None
  end.

(** The text before and the text after the first occurrence of [sep]. *)
Fixpoint breakOn (sep s : string) : option (string * string) :=
  match stripPrefix sep s with
  | Some rest => Some (EmptyString, rest)
  | None =>
      match s with
      | EmptyString => None
      | String c rest =>
          match breakOn sep rest with
          | Some (before, after) => Some (String c before, after)
          | None => None
          end
      end
  end.

(** [s.split(sep)] for a non-empty separator: the pieces between the
    occurrences of [sep], found from left to right.  [s] has fewer
    occurrences than characters, which bounds the recursion. *)
Fixpoint splitN (fuel : nat) (sep s : string) : list string :=
  match fuel with
  | O => [s]
  | S fuel' =>
      match breakOn sep s with
      | None => [s]
      | Some (before, after) => before :: splitN fuel' sep after
      end
  end.

Definition split (sep s : string) : list string :=
  splitN (String.length s) sep s.

(** What [axios.get] and [cheerio.load] give: the request fails, or the
    page has these [table tr] rows, each given by the text of its second
    cell, [$row.find('td').eq(1).text()], which is empty when the row has
    no second cell. *)
Inductive PageReply : Type :=
  | PageRejected (e : JsError)
  | PageRows (cells : list string).

(** [{ rank, artist, title, rawText: artistAndTitle }] *)
Definition chartRow (rank : Z) (artist title rawText : string) : Val :=
  VObj [ ("rank", VNum rank); ("artist", VStr artist); ("title", VStr title);
         ("rawText", VStr rawText) ].

Section Scraper.

(** [String.prototype.trim] and [CHART_RANGE] are parameters of the
    scraper. *)
Variable trim : string -> string.
Variable range : Z.

(** The callback of [$('table tr').each]; [chartData] is the array it
    pushes to. *)
Definition eachRow (index : nat) (cell : string) (chartData : list Val)
    : list Val :=
  if (index =? 0)%nat then chartData
  else if range <=? Z.of_nat (length chartData) then chartData
  else
    let rank := Z.of_nat (length chartData) + 1 in
    let artistAndTitle := trim cell in
    if negb (String.eqb artistAndTitle "") then
      let parts := split " - " artistAndTitle in
      let '(artist, title) :=
        if (2 <=? length parts)%nat then
          (trim (nth 0 parts ""), trim (Manus.joinWith " - " (drop 1 parts)))
        else ("Unknown Artist", artistAndTitle) in
      chartData ++ [chartRow rank artist title artistAndTitle]
    else chartData.

Fixpoint eachRows (index : nat) (cells : list string) (chartData : list Val)
    : list Val :=
  match cells with
  | [] => chartData
  | cell :: rest => eachRows (S index) rest (eachRow index cell chartData)
  end.

(** [scrapeKworbChart]: the [catch] logs and throws the same error
    again. *)
Definition scrapeKworbChart (page : PageReply) : Exc (list Val) :=
  match page with
  | PageRejected e => Throw e
  | PageRows cells =>
      let chartData := eachRows 0 cells [] in
      if (length chartData =? 0)%nat then
        Throw (Error "No chart data found. Website structure might have changed.")
      else Ok chartData
  end.

(** [main]: [mkdir] is what goes wrong in [ensureDataDir], if anything. *)
Definition main (dataDir today now : string) (mkdir : option JsError)
    (page : PageReply) (files : Files) : Manus.Outcome (list Val) * Files :=
  let steps : Exc (list Val * Files) :=
    _ ← match mkdir with Some e => Throw e | None => Ok tt end;
    chartData ← scrapeKworbChart page;
    Ok (chartData, (saveChartData dataDir range today now chartData files).2) in
  match steps with
  | Ok (chartData, written) => (Manus.Returned chartData, written)
  | Throw _ => (Manus.Exited 1, files)
  end.

End Scraper.

End Kworb.

(** ** The whole pipeline: [run-all.js] *)

Module RunAll.

(** How a child process ends for [runScript]: by the first of its [close]
    and [error] events.  The exit code is [None] ([null]) when a signal
    ended the child. *)
Inductive ChildEnd : Type :=
  | Closed (code : option Z)
  | Failed (e : JsError).

Definition Children : Type := string -> ChildEnd.

(** [`${code}`] *)
Definition codeText (code : option Z) : string :=
  match code with
  | Some n => pretty n
  | None => "null"
  end.

(** [runScript]: [started] lists the scripts spawned so far. *)
Definition runScript (children : Children) (scriptPath description : string)
    (started : list string) : Exc unit * list string :=
  let started := started ++ [scriptPath] in
  match children scriptPath with
  | Closed (Some 0) => (Ok tt, started)
  | Closed code =>
      (Throw (Error ("Script failed with exit code " +:+ codeText code)), started)
  | Failed e => (Throw e, started)
  end.

(** [main]: the four stages in a row inside one [try]; the [catch] ends
    the process with code 1. *)
Definition main (children : Children) : Manus.Outcome unit * list string :=
  let '(r, started) :=
    runScript children "./scripts/scrape-kworb.js"
      "Scraping kworb chart data" [] in
  match r with
  | Throw _ => (Manus.Exited 1, started)
  | Ok _ =>
  let '(r, started) :=
    runScript children "./scripts/trigger-manus-agent.js"
      "Collecting TIDAL credits via Manus Agent" started in
  match r with
  | Throw _ => (Manus.Exited 1, started)
  | Ok _ =>
  let '(r, started) :=
    runScript children "./scripts/get-youtube-links.js"
      "Collecting YouTube video links" started in
  match r with
  | Throw _ => (Manus.Exited 1, started)
  | Ok _ =>
  let '(r, started) :=
    runScript children "./scripts/generate-html.js"
      "Generating HTML page" started in
  match r with
  | Throw _ => (Manus.Exited 1, started)
  | Ok _ => (Manus.Returned tt, started)
  end end end end.

End RunAll.

(** ** The player of the generated page: [ChartPlayer] *)

Module Player.

(** The state of a player: [this.currentIndex], and the positions at
    which [displayCurrentTrack] has read [this.chartData]. *)
Record ChartPlayer : Type := mkPlayer {
  currentIndex : Z;
  reads : list Z
}.

Section Methods.

(** [tracks] is [this.chartData.length]; [display i] is what goes wrong
    in the page while track [i] is put on display, if anything. *)
Variable tracks : nat.
Variable display : Z -> option JsError.

(** A method ends normally or throws; the state it leaves holds in both
    cases. *)
Definition displayCurrentTrack (p : ChartPlayer) : option JsError * ChartPlayer :=
  if Z.of_nat tracks <=? currentIndex p then (None, p)
  else (display (currentIndex p),
        mkPlayer (currentIndex p) (reads p ++ [currentIndex p])).

Definition nextTrack (p : ChartPlayer) : option JsError * ChartPlayer :=
  if currentIndex p <? Z.of_nat tracks - 1 then
    displayCurrentTrack (mkPlayer (currentIndex p + 1) (reads p))
  else (None, p).

Definition previousTrack (p : ChartPlayer) : option JsError * ChartPlayer :=
  if 0 <? currentIndex p then
    displayCurrentTrack (mkPlayer (currentIndex p - 1) (reads p))
  else (None, p).

Definition goToTrack (index : Z) (p : ChartPlayer) : option JsError * ChartPlayer :=
  if (0 <=? index) && (index <? Z.of_nat tracks) then
    displayCurrentTrack (mkPlayer index (reads p))
  else (None, p).

(** The callback that [startAutoPlay] hands to [setInterval]. *)
Definition autoPlayTick (p : ChartPlayer) : option JsError * ChartPlayer :=
  match nextTrack p with
  | (Some e, p) => (Some e, p)
  | (None, p) =>
      if currentIndex p =? Z.of_nat tracks - 1 then
        displayCurrentTrack (mkPlayer 0 (reads p))
      else (None, p)
  end.

(** The [keydown] listener; the space bar toggles the video and leaves
    the position alone. *)
Definition keydown (key : string) (p : ChartPlayer) : option JsError * ChartPlayer :=
  if String.eqb key "ArrowLeft" || String.eqb key "ArrowUp" then previousTrack p
  else if String.eqb key "ArrowRight" || String.eqb key "ArrowDown" then nextTrack p
  else if String.eqb key "Home" then goToTrack 0 p
  else if String.eqb key "End" then goToTrack (Z.of_nat tracks - 1) p
  else (None, p).

(** What happens to a player of the page. *)
Inductive Event : Type :=
  | Keydown (key : string)
  | DotClick (i : nat)
  | AutoPlay.

(** An exception of a listener is reported by the browser; the state the
    listener left is the state of the next event. *)
Definition handle (p : ChartPlayer) (ev : Event) : ChartPlayer :=
  match ev with
  | Keydown key => (keydown key p).2
  | DotClick i => (goToTrack (Z.of_nat i) p).2
  | AutoPlay => (autoPlayTick p).2
  end.

(** The constructor sets the position to 0 and [init] puts the first
    track on display. *)
Definition constructed : ChartPlayer :=
  (displayCurrentTrack (mkPlayer 0 [])).2.

Definition after (events : list Event) : ChartPlayer :=
  fold_left handle events constructed.

End Methods.

End Player.

(** ** The scoring rules, as the specification words them *)

Module Rules.
Import YouTube.

Definition containsAny (text : string) (keywords : list string) : bool :=
  existsb (includes text) keywords.

(** +10: the channel name contains "vevo", "records", "music", "official"
    or the artist name. *)
Definition channelBonus `{CaseFolding} (artist : string) (v : Video) : Z :=
  if containsAny (toLowerCase (snippet_channelTitle v))
       ["vevo"; "records"; "music"; "official"; toLowerCase artist]
  then 10 else 0.

(** +5: the title contains both the artist name and the track title. *)
Definition accuracyBonus `{CaseFolding}
    (artist title : string) (v : Video) : Z :=
  if includes (toLowerCase (snippet_title v)) (toLowerCase artist)
     && includes (toLowerCase (snippet_title v)) (toLowerCase title)
  then 5 else 0.

(** +3: the title contains "official" or "music video". *)
Definition officialBonus `{CaseFolding} (v : Video) : Z :=
  if includes (toLowerCase (snippet_title v)) "official"
     || includes (toLowerCase (snippet_title v)) "music video"
  then 3 else 0.

(** -5: the title contains an excluded keyword. *)
Definition excludePenalty `{CaseFolding} (v : Video) : Z :=
  if containsAny (toLowerCase (snippet_title v))
       ["cover"; "remix"; "live"; "acoustic"; "karaoke"; "instrumental"]
  then -5 else 0.

(** The candidate is the first element of the array. *)
Definition isFirstElement (videos : list Video) (v : Video) : bool :=
  match videos with
  | first :: _ => sameObject first v
  | [] => false
  end.

Definition firstBonus (videos : list Video) (v : Video) : Z :=
  if isFirstElement videos v then 2 else 0.

Definition totalScore `{CaseFolding}
    (videos : list Video) (artist title : string)
    (v : Video) : Z :=
  channelBonus artist v + accuracyBonus artist title v + officialBonus v
  + excludePenalty v + firstBonus videos v.

(** The same candidate under another title. *)
Definition withTitle (v : Video) (newTitle : string) : Video :=
  mkVideo (oid v) (id_videoId v) newTitle (snippet_channelTitle v)
          (snippet_publishedAt v) (snippet_thumbnails v).

End Rules.

(** ** The states of a remote task, as the specification names them *)

Module Remote.
Import Manus.

(** The status text of a reply, when it has one. *)
Definition replyStatus (reply : PollReply) : option string :=
  match reply with
  | PollData (VObj props) =>
      match lookupProp "status" props with
      | Some (VStr s) => Some s
      | _ => None
      end
  | _ => None
  end.

(** The [result] field of a reply. *)
Definition replyResult (reply : PollReply) : Val :=
  match reply with
  | PollData (VObj props) => default VUndefined (lookupProp "result" props)
  | _ => VUndefined
  end.

(** The [error] field of a reply. *)
Definition replyError (reply : PollReply) : Val :=
  match reply with
  | PollData (VObj props) => default VUndefined (lookupProp "error" props)
  | _ => VUndefined
  end.

(** The task is still pending or running. *)
Definition inProgress (reply : PollReply) : Prop :=
  replyStatus reply = Some "pending" \/ replyStatus reply = Some "running".

Definition pendingTask : PollReply :=
  PollData (VObj [("status", VStr "pending")]).

Definition completedTask (result : Val) : PollReply :=
  PollData (VObj [("status", VStr "completed"); ("result", result)]).

Definition failedTask (error : string) : PollReply :=
  PollData (VObj [("status", VStr "failed"); ("error", VStr error)]).

(** A server that answers from a script and rejects every request after
    the script has run out. *)
Definition scripted (script : list PollReply) (n : nat) : PollReply :=
  default (PollRejected (Error "no reply scripted")) (script !! n).

End Remote.

(** ** The shape of entries, as the specification words it *)

Module Shapes.

(** [null] or [undefined]. *)
Definition nullish (v : Val) : bool :=
  match v with
  | VUndefined | VNull => true
  | _ => false
  end.

(** The value converts to text without an exception. *)
Definition printable (v : Val) : bool :=
  match toStringVal v with
  | Ok _ => true
  | Throw _ => false
  end.

(** The field [key] of an entry; [undefined] when there is none. *)
Definition field (item : Val) (key : string) : Val :=
  match item with
  | VObj props => default VUndefined (lookupProp key props)
  | _ => VUndefined
  end.

(** The entry has a non-empty rank, artist and title. *)
Definition hasRequired (item : Val) : bool :=
  truthy (field item "rank") && truthy (field item "artist")
  && truthy (field item "title").

(** What identifies an entry. *)
Definition identity (item : Val) : Val * Val * Val :=
  (field item "rank", field item "artist", field item "title").

(** The items the validation can inspect: the item is not [null]; when it
    has its required fields, none of the lines of its [credits] array is
    [null], or, when [credits] is not an array, its artist and title can
    be printed in the warning. *)
Definition cleanable (item : Val) : bool :=
  negb (nullish item)
  && (if hasRequired item then
        match field item "credits" with
        | VArr lines => forallb (fun line => negb (nullish line)) lines
        | _ => printable (field item "artist") && printable (field item "title")
        end
      else true).

(** An entry of the credits snapshot as the video stage reads it: an
    object whose rank, artist and title can be printed. *)
Definition creditedEntry (item : Val) : bool :=
  match item with
  | VObj _ =>
      printable (field item "rank") && printable (field item "artist")
      && printable (field item "title")
  | _ => false
  end.

End Shapes.

(** ** The outcome of one search, as the specification words it *)

Module Enrich.
Import YouTube Shapes.

(** The query sent for an entry. *)
Definition queryFor (item : Val) : Exc string :=
  queryOf (field item "artist") (field item "title").

(** The search for the entry failed, or gave no usable candidate: the
    request was rejected, or no video of the reply is selected for the
    entry. *)
Definition noUsableCandidate `{CaseFolding}
    (reply : SearchReply) (item : Val) : Prop :=
  match reply with
  | SearchRejected _ => True
  | SearchItems videos =>
      forall w, findBestVideo videos (field item "artist") (field item "title")
                <> Ok (Some w)
  end.

(** What is recorded for an entry whose search is the [n]-th request. *)
Definition youtubeFor `{CaseFolding}
    (api : SearchApi) (n : nat) (item : Val) : Val :=
  match queryFor item with
  | Ok query =>
      match searchAttempt (api n query) (field item "artist") (field item "title") with
      | Ok found => found
      | Throw _ => VNull
      end
  | Throw _ => VNull
  end.

End Enrich.

(** ** Credit lines, as the validation keeps them *)

Module Lines.
Import Shapes.

(** Both [role] and [people] are non-empty strings. *)
Definition wellFormedLine (line : Val) : bool :=
  isString (field line "role") && truthy (field line "role")
  && isString (field line "people") && truthy (field line "people").

(** The credit lines an entry keeps: the well-formed lines of its
    [credits] array, and none when [credits] is not an array. *)
Definition cleanedCredits (item : Val) : list Val :=
  match field item "credits" with
  | VArr lines => List.filter wellFormedLine lines
  | _ => []
  end.

(** The entry as the validation returns it. *)
Definition cleanedEntry (item : Val) : Val :=
  Manus.assign item "credits" (VArr (cleanedCredits item)).

End Lines.

(** ** Replies that keep the wait going *)

Module Waiting.
Import Manus Shapes.

(** The reply carries a task whose status can be printed and is neither
    "completed" nor "failed": any other text, any other value, or no
    status at all. *)
Definition stillOpen (reply : PollReply) : bool :=
  match reply with
  | PollRejected _ => false
  | PollData task =>
      negb (nullish task)
      && printable (field task "status")
      && negb (strictEqStr (field task "status") "completed")
      && negb (strictEqStr (field task "status") "failed")
  end.

(** A task in a state the remote API documents nowhere. *)
Definition queuedTask : PollReply :=
  PollData (VObj [("status", VStr "queued"); ("position", VNum 4)]).

End Waiting.

(** ** Chart entries the prompt can list *)

Module Prompting.
Import Shapes.

(** The entry is not [null] and its rank, artist and title can be
    printed. *)
Definition chartEntry (item : Val) : bool :=
  negb (nullish item)
  && printable (field item "rank")
  && printable (field item "artist")
  && printable (field item "title").

(** A remote agent that accepts every request as task 7. *)
Definition acceptingAgent : Manus.PostApi :=
  fun _ => Manus.PostData (VObj [("task_id", VStr "task-7")]).

End Prompting.

(** ** The rows the scraper keeps *)

Module Charting.
Import Kworb.

Definition nonBlank (text : string) : bool := negb (String.eqb text "").

(** The trimmed texts of the rows after the first that are not blank,
    cut at [range] rows. *)
Definition keptTexts (trim : string -> string) (range : Z)
    (cells : list string) : list string :=
  take (Z.to_nat range) (List.filter nonBlank (map trim (tail cells))).

(** The artist and the title read off a row text: the text before and
    the text after its first [" - "]. *)
Definition artistOf (trim : string -> string) (text : string) : string :=
  match breakOn " - " text with
  | Some (before, _) => trim before
  | None => "Unknown Artist"
  end.

Definition titleOf (trim : string -> string) (text : string) : string :=
  match breakOn " - " text with
  | Some (_, after) => trim after
  | None => text
  end.

(** The entries of the given row texts, ranked from [rank] on. *)
Fixpoint ranked (trim : string -> string) (rank : Z) (texts : list string)
    : list Val :=
  match texts with
  | [] => []
  | text :: rest =>
      chartRow rank (artistOf trim text) (titleOf trim text) text
      :: ranked trim (rank + 1) rest
  end.

End Charting.

(** ** The stages of the pipeline *)

Module Stages.
Import RunAll.

Definition stages : list string :=
  [ "./scripts/scrape-kworb.js"; "./scripts/trigger-manus-agent.js";
    "./scripts/get-youtube-links.js"; "./scripts/generate-html.js" ].

(** The child of the script closed with exit code 0. *)
Definition exitedCleanly (children : Children) (script : string) : bool :=
  match children script with
  | Closed (Some 0) => true
  | _ => false
  end.

(** The scripts up to and including the first one that fails. *)
Fixpoint upToFirstFailure (ok : string -> bool) (scripts : list string)
    : list string :=
  match scripts with
  | [] => []
  | script :: rest =>
      script :: (if ok script then upToFirstFailure ok rest else [])
  end.

End Stages.

(** ** What a snapshot file holds *)

Module Snapshot.
Import Shapes.

(** The file exists and its [data] is this array. *)
Definition holdsArray (files : Files) (path : string) (items : list Val) : Prop :=
  exists doc, files !! path = Some doc /\ field doc "data" = VArr items.

(** The file is absent, or it has no [data], or its [data] is [null]. *)
Definition holdsNoData (files : Files) (path : string) : Prop :=
  forall doc, files !! path = Some doc -> nullish (field doc "data") = true.

End Snapshot.

(** ** The positions of the player *)

Module Position.
Import Player.

(** The position is a track of the chart (position 0 on an empty chart),
    and so is every position at which the chart has been read. *)
Definition inChart (tracks : nat) (p : ChartPlayer) : Prop :=
  0 <= currentIndex p
  /\ (currentIndex p < Z.of_nat tracks \/ currentIndex p = 0)
  /\ Forall (fun i => 0 <= i < Z.of_nat tracks) (reads p).

End Position.

(** ** Sample data *)

Module Samples.
Import YouTube Rules.

(** The case folding of the ASCII letters, for the sample data, which are
    ASCII: on such texts [String.prototype.toLowerCase] does the same. *)
Definition lowerAscii (c : ascii) : ascii :=
  let n := N_of_ascii c in
  if ((65 <=? n) && (n <=? 90))%N then ascii_of_N (n + 32) else c.

Fixpoint asciiLowerCase (s : string) : string :=
  match s with
  | EmptyString => EmptyString
  | String c rest => String (lowerAscii c) (asciiLowerCase rest)
  end.

#[export] Instance asciiFolding : CaseFolding :=
  {| toLowerCase := asciiLowerCase |}.

(** A lone cover version on an unrelated channel. *)
Definition coverOnly : Video :=
  mkVideo 0 "c0" "Song (Cover)" "Someone" "2020-01-01T00:00:00Z" VNull.

(** Two candidates that both score 0 for artist "Artist", title "Song". *)
Definition zeroFirst : Video :=
  mkVideo 0 "z0" "Official Cover" "Someone" "2020-01-01T00:00:00Z" VNull.
Definition zeroSecond : Video :=
  mkVideo 1 "z1" "Plain" "Nobody" "2020-01-02T00:00:00Z" VNull.

(** Two candidates that both score 10 for artist "Artist", title "Song". *)
Definition tenFirst : Video :=
  mkVideo 0 "t0" "Artist - Song (Official)" "Someone" "2020-01-01T00:00:00Z" VNull.
Definition tenSecond : Video :=
  mkVideo 1 "t1" "Whatever" "ArtistVEVO" "2020-01-02T00:00:00Z" VNull.

(** A remix, and the same candidate with "cover" added to its title. *)
Definition remixPlain : Video :=
  mkVideo 0 "r0" ("Song Remix " +:+ "") "Someone" "2020-01-01T00:00:00Z" VNull.
Definition remixMarked : Video :=
  withTitle remixPlain ("Song Remix " +:+ "cover" +:+ "").

(** A studio upload of the band "Live", and the same candidate with
    "live" added to its title. *)
Definition bandPlain : Video :=
  mkVideo 0 "b0" ("Song " +:+ "") "Someone" "2020-01-01T00:00:00Z" VNull.
Definition bandMarked : Video :=
  withTitle bandPlain ("Song " +:+ "live" +:+ "").

(** A plain upload, and the same candidate with "live" added to its title. *)
Definition studioPlain : Video :=
  mkVideo 0 "s0" ("Song " +:+ " (HD)") "Someone" "2020-01-01T00:00:00Z" VNull.
Definition studioMarked : Video :=
  withTitle studioPlain ("Song " +:+ "Live" +:+ " (HD)").

(** Entries of a credits payload. *)
Definition entryOne : Val :=
  VObj [ ("rank", VNum 1); ("artist", VStr "A"); ("title", VStr "B");
         ("album", VStr "C");
         ("credits", VArr [ VObj [("role", VStr "PRODUCER"); ("people", VStr "X")];
                            VObj [("role", VStr ""); ("people", VStr "Y")] ]) ].
Definition entryNoTitle : Val :=
  VObj [ ("rank", VNum 2); ("artist", VStr "D"); ("credits", VArr []) ].
Definition entryThree : Val :=
  VObj [ ("rank", VNum 3); ("artist", VStr "E"); ("title", VStr "F") ].

(** An entry that the validation keeps although its artist cannot be
    printed, and an entry that already has a [youtube] field. *)
Definition unprintableEntry : Val :=
  VObj [ ("rank", VNum 2); ("artist", VObj [("toString", VNum 1)]);
         ("title", VStr "T"); ("credits", VArr []) ].
Definition entryWithVideo : Val :=
  VObj [ ("rank", VNum 4); ("youtube", VStr "stale"); ("artist", VStr "G");
         ("title", VStr "H") ].

(** A search provider whose first request fails and whose later requests
    find the official video of artist "E", title "F". *)
Definition officialVideo : Video :=
  mkVideo 0 "v0" "E - F (Official Music Video)" "E VEVO" "2021-05-01T00:00:00Z"
          VNull.
Definition flakyApi : SearchApi :=
  fun n _ =>
    match n with
    | O => SearchRejected (Error "quotaExceeded")
    | _ => SearchItems [officialVideo]
    end.

End Samples.

(** ** Sample runs of the credits stage *)

Module Runs.
Import Manus Kworb Remote Prompting Samples.

(** A data directory in which the chart stage has run. *)
Definition chartWritten : Files :=
  (saveChartData "./data" 30 "2024-05-06T00:00:01.000Z"
     "2024-05-06T00:00:01.002Z" [entryThree] ∅).2.

(** A remote agent that completes the task at the second status request. *)
Definition completingAgent : TaskApi :=
  fun _ => scripted [ pendingTask;
                      completedTask (VArr [entryOne; entryNoTitle; entryThree]) ].

(** A remote agent whose task fails. *)
Definition failingAgent : TaskApi :=
  fun _ => scripted [pendingTask; failedTask "TIDAL unreachable"].

End Runs.

(** ** A sample page and a sample run of the pipeline *)

Module Pages.
Import Kworb RunAll.

Fixpoint trimStart (s : string) : string :=
  match s with
  | String c rest => if Ascii.eqb c " "%char then trimStart rest else s
  | EmptyString => EmptyString
  end.

Fixpoint trimEnd (s : string) : string :=
  match s with
  | EmptyString => EmptyString
  | String c rest =>
      match trimEnd rest with
      | EmptyString => if Ascii.eqb c " "%char then EmptyString else String c EmptyString
      | kept => String c kept
      end
  end.

(** A trim that removes the spaces at both ends. *)
Definition trimSpaces (s : string) : string := trimEnd (trimStart s).

(** A header row, two chart rows around a blank one, and a row without a
    separator. *)
Definition chartPage : list string :=
  [ "Artist and Title"; " The Weeknd - Blinding Lights "; "   ";
    "Intro"; "Tyler - See You Again - Remix" ].

(** The credits stage ends with exit code 1, every other stage with 0. *)
Definition creditsFail : Children :=
  fun script =>
    if String.eqb script "./scripts/trigger-manus-agent.js" then Closed (Some 1)
    else Closed (Some 0).

End Pages.

(** * Properties *)

Import YouTube Manus GenerateHtml Kworb RunAll Player Rules Remote Shapes Enrich
  Lines Waiting Prompting Charting Stages Snapshot Position Samples Runs Pages.

(** One step of a computation that may throw. *)
Ltac run_bind := cbn [mbind exc_bind].

(** ** Strings *)

Section Strings.

Lemma asciiLowerCase_app (a b : string) :
  asciiLowerCase (a +:+ b) = asciiLowerCase a +:+ asciiLowerCase b.
Proof.
  induction a as [|c a IH]; simpl; [reflexivity|].
  now rewrite IH.
Qed.

Lemma prefix_app (k rest : string) : String.prefix k (k +:+ rest) = true.
Proof.
  induction k as [|c k IH]; simpl.
  - now destruct rest.
  - destruct (ascii_dec c c) as [_|n]; [exact IH | now destruct n].
Qed.

Lemma includes_unfold (s sub : string) :
  includes s sub
  = if String.prefix sub s then true
    else match s with
         | EmptyString => false
         | String _ rest => includes rest sub
         end.
Proof. destruct s; reflexivity. Qed.

Lemma includes_here (k rest : string) : includes (k +:+ rest) k = true.
Proof. now rewrite includes_unfold, prefix_app. Qed.

Lemma includes_skip (a s k : string) :
  includes s k = true -> includes (a +:+ s) k = true.
Proof.
  intros H. induction a as [|c a IH]; [exact H|].
  change (String c a +:+ s) with (String c (a +:+ s)).
  rewrite includes_unfold, IH. now destruct (String.prefix k _).
Qed.

Lemma includes_inserted (a k b : string) : includes (a +:+ k +:+ b) k = true.
Proof. apply includes_skip, includes_here. Qed.

End Strings.

(** ** Scoring *)

Section Scoring.

Lemma forKeywordBreak_spec (keywords : list string) (text : string) (delta score : Z) :
  forKeywordBreak keywords text delta score
  = if containsAny text keywords then score + delta else score.
Proof.
  unfold containsAny.
  induction keywords as [|k ks IH]; simpl; [reflexivity|].
  destruct (includes text k); simpl; [reflexivity | exact IH].
Qed.

Lemma indexOfFrom_lower_bound (videos : list Video) (v : Video) (i : Z) :
  indexOfFrom i videos v = -1 \/ i <= indexOfFrom i videos v.
Proof.
  revert i. induction videos as [|w ws IH]; intros i; simpl; [now left|].
  destruct (sameObject w v); [right; lia|].
  destruct (IH (i + 1)) as [H|H]; [now left | right; lia].
Qed.

Lemma indexOf_first (videos : list Video) (v : Video) :
  (indexOf videos v =? 0) = isFirstElement videos v.
Proof.
  unfold indexOf. destruct videos as [|w ws]; simpl; [reflexivity|].
  destruct (sameObject w v); [reflexivity|].
  destruct (indexOfFrom_lower_bound ws v (0 + 1)) as [H|H].
  - now rewrite H.
  - apply Z.eqb_neq. lia.
Qed.

(** The score the loop body computes, for string arguments. *)
Lemma videoScore_total `{folding : CaseFolding}
    (videos : list Video) (artist title : string) (v : Video) :
  videoScore videos (officialKeywords (toLowerCase artist))
             (VStr artist) (VStr title) v
  = Ok (totalScore videos artist title v).
Proof.
  unfold videoScore, titleAccurate, totalScore, channelBonus, accuracyBonus,
    officialBonus, excludePenalty, firstBonus, officialKeywords, excludeKeywords.
  cbn [callToLowerCase mbind exc_bind].
  set (ch := toLowerCase (snippet_channelTitle v)).
  set (ti := toLowerCase (snippet_title v)).
  destruct (includes ti (toLowerCase artist));
    cbn [callToLowerCase mbind exc_bind andb];
    [destruct (includes ti (toLowerCase title))|];
    rewrite !forKeywordBreak_spec, indexOf_first;
    destruct (containsAny ch _);
    destruct (includes ti "official" || includes ti "music video");
    destruct (containsAny ti _);
    destruct (isFirstElement videos v); f_equal; lia.
Qed.

Lemma isFirstElement_position (videos : list Video) (i : nat) (v : Video) :
  distinctObjects videos -> videos !! i = Some v ->
  isFirstElement videos v = bool_decide (i = 0%nat).
Proof.
  unfold distinctObjects. intros Hnd Hi.
  destruct videos as [|w ws]; [discriminate|]. simpl in *.
  apply NoDup_cons in Hnd as [Hw _].
  destruct i as [|i]; simpl in Hi.
  - injection Hi as ->. unfold sameObject. now rewrite Nat.eqb_refl.
  - unfold sameObject. rewrite bool_decide_eq_false_2 by lia.
    apply Nat.eqb_neq. intros E. apply Hw. rewrite E.
    apply list_elem_of_fmap. exists v. split; [reflexivity|].
    eapply list_elem_of_lookup_2, Hi.
Qed.

(** C2.  The score of a candidate is the sum of five components: +10 when
    the lowercased channel name contains "vevo", "records", "music",
    "official" or the lowercased artist name; +5 when the lowercased
    title contains both the lowercased artist name and the lowercased
    track title; +3 when it contains "official" or "music video"; -5 when
    it contains one of the six excluded keywords; +2 when the candidate is
    the first element of the array.  Each component is counted at most
    once.  In an array of distinct objects the first element is the
    candidate at position 0. *)
Theorem score_is_sum_of_components `{folding : CaseFolding}
    (videos : list Video)
    (artist title : string) (v : Video) :
  videoScore videos (officialKeywords (toLowerCase artist))
             (VStr artist) (VStr title) v
  = Ok (  (if containsAny (toLowerCase (snippet_channelTitle v))
              ["vevo"; "records"; "music"; "official"; toLowerCase artist]
           then 10 else 0)
        + (if includes (toLowerCase (snippet_title v)) (toLowerCase artist)
              && includes (toLowerCase (snippet_title v)) (toLowerCase title)
           then 5 else 0)
        + (if includes (toLowerCase (snippet_title v)) "official"
              || includes (toLowerCase (snippet_title v)) "music video"
           then 3 else 0)
        + (if containsAny (toLowerCase (snippet_title v))
              ["cover"; "remix"; "live"; "acoustic"; "karaoke"; "instrumental"]
           then -5 else 0)
        + (if isFirstElement videos v then 2 else 0))
  /\ forall i : nat,
       distinctObjects videos -> videos !! i = Some v ->
       isFirstElement videos v = bool_decide (i = 0%nat).
Proof.
  split.
  - apply videoScore_total.
  - intros i. apply isFirstElement_position.
Qed.

(** The second of two candidates, with a "VEVO" channel: 10 for the
    channel, nothing else, and no bonus for the first position. *)
Lemma score_is_sum_witness :
  videoScore [tenFirst; tenSecond] (officialKeywords (toLowerCase "Artist"))
             (VStr "Artist") (VStr "Song") tenSecond
  = Ok (10 + 0 + 0 + 0 + 0)
  /\ isFirstElement [tenFirst; tenSecond] tenSecond = bool_decide (1 = 0)%nat.
Proof.
  destruct (score_is_sum_of_components [tenFirst; tenSecond] "Artist" "Song"
              tenSecond) as [Hscore Hfirst].
  split.
  - rewrite Hscore. vm_compute. reflexivity.
  - apply Hfirst; [unfold distinctObjects; simpl; compute_done | reflexivity].
Defined.

End Scoring.

(** ** Selection of the best candidate *)

Section Selection.

Variables (videos : list Video) (artist title : string).

(** The loop keeps the running best unless a candidate exceeds it, and
    then ends on the earliest candidate of maximal score. *)
Lemma bestLoop_spec `{folding : CaseFolding}
    (remaining : list Video) (bestVideo : option Video)
    (bestScore : Z) :
  exists r,
    bestLoop videos (officialKeywords (toLowerCase artist))
             (VStr artist) (VStr title) remaining bestVideo bestScore = Ok r /\
    ((r = bestVideo /\
      forall v, v ∈ remaining -> totalScore videos artist title v <= bestScore)
     \/ (exists (i : nat) (w : Video),
           remaining !! i = Some w /\ r = Some w
           /\ bestScore < totalScore videos artist title w
           /\ (forall v, v ∈ remaining ->
                 totalScore videos artist title v <= totalScore videos artist title w)
           /\ (forall (j : nat) (u : Video),
                 (j < i)%nat -> remaining !! j = Some u ->
                 totalScore videos artist title u < totalScore videos artist title w))).
Proof.
  revert bestVideo bestScore.
  induction remaining as [|v rest IH]; intros bestVideo bestScore.
  - exists bestVideo. split; [reflexivity|]. left. split; [reflexivity|].
    intros v Hv. inversion Hv.
  - cbn [bestLoop]. rewrite videoScore_total. run_bind.
    destruct (Z.gtb_spec (totalScore videos artist title v) bestScore) as [Hgt|Hle].
    + destruct (IH (Some v) (totalScore videos artist title v))
        as (r & Hr & [[-> Hall]|(i & w & Hi & -> & Hw & Hall & Hbefore)]).
      * exists (Some v). split; [exact Hr|]. right. exists 0%nat, v.
        repeat split; [lia| |intros j u Hj; lia].
        intros u Hu. apply elem_of_cons in Hu as [->|Hu]; [lia | now apply Hall].
      * exists (Some w). split; [exact Hr|]. right. exists (S i), w.
        repeat split; [exact Hi | lia | |].
        -- intros u Hu. apply elem_of_cons in Hu as [->|Hu]; [lia | now apply Hall].
        -- intros [|j] u Hj Hu; simpl in Hu.
           ++ injection Hu as <-. exact Hw.
           ++ apply (Hbefore j); [lia | exact Hu].
    + destruct (IH bestVideo bestScore)
        as (r & Hr & [[-> Hall]|(i & w & Hi & -> & Hw & Hall & Hbefore)]).
      * exists bestVideo. split; [exact Hr|]. left. split; [reflexivity|].
        intros u Hu. apply elem_of_cons in Hu as [->|Hu]; [lia | now apply Hall].
      * exists (Some w). split; [exact Hr|]. right. exists (S i), w.
        repeat split; [exact Hi | lia | |].
        -- intros u Hu. apply elem_of_cons in Hu as [->|Hu]; [lia | now apply Hall].
        -- intros [|j] u Hj Hu; simpl in Hu.
           ++ injection Hu as <-. lia.
           ++ apply (Hbefore j); [lia | exact Hu].
Qed.

(** [findBestVideo] on string arguments: it returns [null] when no
    candidate scores above 0, and otherwise the earliest candidate of
    maximal score. *)
Lemma findBestVideo_spec `{folding : CaseFolding} :
  exists r, findBestVideo videos (VStr artist) (VStr title) = Ok r /\
    ((r = None /\ forall v, v ∈ videos -> totalScore videos artist title v <= 0)
     \/ (exists (i : nat) (w : Video),
           videos !! i = Some w /\ r = Some w
           /\ 0 < totalScore videos artist title w
           /\ (forall v, v ∈ videos ->
                 totalScore videos artist title v <= totalScore videos artist title w)
           /\ (forall (j : nat) (u : Video),
                 (j < i)%nat -> videos !! j = Some u ->
                 totalScore videos artist title u < totalScore videos artist title w))).
Proof.
  unfold findBestVideo. cbn [callToLowerCase mbind exc_bind].
  apply (bestLoop_spec videos None 0).
Qed.

End Selection.

Section SelectionClaims.

Lemma distinctObjects_lookup_inj (videos : list Video) (a b : nat) (v : Video) :
  distinctObjects videos -> videos !! a = Some v -> videos !! b = Some v -> a = b.
Proof.
  unfold distinctObjects. intros Hnd Ha Hb.
  eapply (NoDup_lookup _ a b (oid v) Hnd); rewrite list_lookup_fmap.
  - now rewrite Ha.
  - now rewrite Hb.
Qed.

(** C1, as the code has it.  [findBestVideo] returns [null] exactly when
    no candidate scores above 0 (so also on the empty list); otherwise it
    returns a candidate of the list whose score is positive and maximal. *)
Theorem findBestVideo_absent_iff_no_positive_score `{folding : CaseFolding}
    (videos : list Video)
    (artist title : string) :
  exists r, findBestVideo videos (VStr artist) (VStr title) = Ok r /\
    (r = None <-> forall v, v ∈ videos -> totalScore videos artist title v <= 0) /\
    (forall w, r = Some w ->
       w ∈ videos /\ 0 < totalScore videos artist title w /\
       forall v, v ∈ videos ->
         totalScore videos artist title v <= totalScore videos artist title w).
Proof.
  destruct (findBestVideo_spec videos artist title)
    as (r & Hr & [[-> Hall]|(i & w & Hi & -> & Hw & Hall & _)]).
  - exists None. repeat split; [exact Hr | auto | discriminate..].
  - exists (Some w). split; [exact Hr|]. split.
    + split; [discriminate|]. intros Hle.
      assert (w ∈ videos) as Hin by (eapply list_elem_of_lookup_2, Hi).
      specialize (Hle w Hin). lia.
    + intros w' [= <-]. repeat split; [|exact Hw|exact Hall].
      eapply list_elem_of_lookup_2, Hi.
Qed.

(** The lone cover version scores -3, so nothing is selected. *)
Lemma findBestVideo_absent_iff_witness :
  findBestVideo [coverOnly] (VStr "Artist") (VStr "Song") = Ok None.
Proof.
  destruct (findBestVideo_absent_iff_no_positive_score [coverOnly] "Artist" "Song")
    as (r & Hr & [_ Hnone] & _).
  rewrite Hr. f_equal. apply Hnone.
  intros v Hv. apply list_elem_of_singleton in Hv as ->. vm_compute. discriminate.
Defined.

(** C1 as stated fails: a list of one candidate whose score is -3 yields
    [null], although the list is not empty. *)
Lemma single_candidate_below_zero_is_rejected :
  totalScore [coverOnly] "Artist" "Song" coverOnly = -3
  /\ findBestVideo [coverOnly] (VStr "Artist") (VStr "Song") = Ok None
  /\ [coverOnly] <> [].
Proof. repeat split; [vm_compute; reflexivity..| discriminate]. Qed.

(** C5, as the code has it.  Of two candidates with the same score, the
    earlier one is returned when that score is positive, is the maximum
    of the list and is reached by no candidate before it; and the later
    of two tied candidates is never returned. *)
Theorem tie_break_prefers_earlier `{folding : CaseFolding}
    (videos : list Video) (artist title : string)
    (i j : nat) (vi vj : Video) :
  (i < j)%nat ->
  videos !! i = Some vi ->
  videos !! j = Some vj ->
  totalScore videos artist title vi = totalScore videos artist title vj ->
  (0 < totalScore videos artist title vi ->
   (forall v, v ∈ videos ->
      totalScore videos artist title v <= totalScore videos artist title vi) ->
   (forall (k : nat) (u : Video), (k < i)%nat -> videos !! k = Some u ->
      totalScore videos artist title u < totalScore videos artist title vi) ->
   findBestVideo videos (VStr artist) (VStr title) = Ok (Some vi))
  /\ (distinctObjects videos ->
      findBestVideo videos (VStr artist) (VStr title) <> Ok (Some vj)).
Proof.
  intros Hij Hi Hj Heq.
  destruct (findBestVideo_spec videos artist title)
    as (r & Hr & [[-> Hall]|(k & w & Hk & -> & Hw & Hall & Hbefore)]);
    rewrite Hr.
  - split.
    + intros Hpos _ _.
      assert (vi ∈ videos) as Hin by (eapply list_elem_of_lookup_2, Hi).
      specialize (Hall vi Hin). lia.
    + intros _. discriminate.
  - split.
    + intros _ Hmax Hfirst. do 2 f_equal.
      destruct (Nat.lt_trichotomy k i) as [Hlt|[->|Hgt]].
      * specialize (Hfirst k w Hlt Hk).
        assert (vi ∈ videos) as Hin by (eapply list_elem_of_lookup_2, Hi).
        specialize (Hall vi Hin). lia.
      * congruence.
      * specialize (Hbefore i vi Hgt Hi).
        assert (w ∈ videos) as Hin by (eapply list_elem_of_lookup_2, Hk).
        specialize (Hmax w Hin). lia.
    + intros Hnd [= ->].
      assert (k = j) as -> by (eapply distinctObjects_lookup_inj; eauto).
      specialize (Hbefore i vi Hij Hi). lia.
Qed.

(** Two candidates tied at 10: the earlier one is returned, the later one
    is not. *)
Lemma tie_break_witness :
  totalScore [tenFirst; tenSecond] "Artist" "Song" tenFirst
    = totalScore [tenFirst; tenSecond] "Artist" "Song" tenSecond
  /\ findBestVideo [tenFirst; tenSecond] (VStr "Artist") (VStr "Song")
       = Ok (Some tenFirst)
  /\ findBestVideo [tenFirst; tenSecond] (VStr "Artist") (VStr "Song")
       <> Ok (Some tenSecond).
Proof.
  assert (totalScore [tenFirst; tenSecond] "Artist" "Song" tenFirst
          = totalScore [tenFirst; tenSecond] "Artist" "Song" tenSecond) as Heq
    by (vm_compute; reflexivity).
  destruct (tie_break_prefers_earlier [tenFirst; tenSecond] "Artist" "Song"
              0 1 tenFirst tenSecond) as [Hfirst Hnever];
    [lia | reflexivity | reflexivity | exact Heq |].
  split; [exact Heq|]. split.
  - apply Hfirst.
    + vm_compute. reflexivity.
    + intros v Hv. apply elem_of_cons in Hv as [->|Hv];
        [|apply list_elem_of_singleton in Hv as ->]; vm_compute; discriminate.
    + intros k u Hk. lia.
  - apply Hnever. unfold distinctObjects. simpl. compute_done.
Defined.

(** C5 as stated fails: two candidates tied at score 0 yield [null], not
    the earlier of the two. *)
Lemma tie_at_zero_returns_nothing :
  totalScore [zeroFirst; zeroSecond] "Artist" "Song" zeroFirst = 0
  /\ totalScore [zeroFirst; zeroSecond] "Artist" "Song" zeroSecond = 0
  /\ findBestVideo [zeroFirst; zeroSecond] (VStr "Artist") (VStr "Song") = Ok None
  /\ findBestVideo [zeroFirst; zeroSecond] (VStr "Artist") (VStr "Song")
       <> Ok (Some zeroFirst).
Proof. repeat split; [vm_compute; reflexivity..| discriminate]. Qed.

End SelectionClaims.

(** ** The penalty for excluded keywords *)

Section Penalty.

Lemma isFirstElement_same_oid (pre post : list Video) (v w : Video) :
  oid v = oid w ->
  isFirstElement (pre ++ v :: post) v = isFirstElement (pre ++ w :: post) w.
Proof.
  intros E. destruct pre as [|p pre]; simpl; unfold sameObject.
  - now rewrite !Nat.eqb_refl.
  - now rewrite E.
Qed.

Lemma excludePenalty_found `{folding : CaseFolding}
    (v : Video) (newTitle keyword : string) :
  keyword ∈ excludeKeywords ->
  includes (toLowerCase newTitle) keyword = true ->
  excludePenalty (withTitle v newTitle) = -5.
Proof.
  intros Hk Hfound. unfold excludePenalty, containsAny. simpl snippet_title.
  replace (existsb _ _) with true; [reflexivity|].
  symmetry. apply existsb_exists. exists keyword. split.
  - apply list_elem_of_In, Hk.
  - exact Hfound.
Qed.

(** Where lowercasing acts letter by letter, a keyword put into a title is
    found in the lowercased title. *)
Lemma keyword_found_when_folding_distributes `{folding : CaseFolding}
    (before keyword after : string) :
  (forall a b, toLowerCase (a +:+ b) = toLowerCase a +:+ toLowerCase b) ->
  includes (toLowerCase (before +:+ keyword +:+ after)) (toLowerCase keyword)
  = true.
Proof. intros Happ. rewrite !Happ. apply includes_inserted. Qed.

(** C6, as the code has it.  Adding an excluded keyword to the title of a
    candidate, so that the lowercased title holds the keyword, lowers its
    score by exactly 5 when the title held no excluded keyword before, and
    the addition changes neither the title-accuracy bonus nor the
    official-keyword bonus. *)
Theorem exclude_keyword_lowers_score_by_5 `{folding : CaseFolding}
    (pre post : list Video)
    (v : Video) (before keyword after artist title : string) :
  let plain := withTitle v (before +:+ after) in
  let marked := withTitle v (before +:+ keyword +:+ after) in
  toLowerCase keyword ∈ excludeKeywords ->
  includes (toLowerCase (before +:+ keyword +:+ after)) (toLowerCase keyword)
  = true ->
  containsAny (toLowerCase (before +:+ after)) excludeKeywords = false ->
  accuracyBonus artist title marked = accuracyBonus artist title plain ->
  officialBonus marked = officialBonus plain ->
  exists s,
    videoScore (pre ++ plain :: post) (officialKeywords (toLowerCase artist))
               (VStr artist) (VStr title) plain = Ok s
    /\ videoScore (pre ++ marked :: post) (officialKeywords (toLowerCase artist))
                  (VStr artist) (VStr title) marked = Ok (s - 5).
Proof.
  intros plain marked Hk Hfound Hnone Hacc Hoff.
  rewrite !videoScore_total. eexists. split; [reflexivity|]. f_equal.
  unfold totalScore, firstBonus.
  rewrite Hacc, Hoff.
  rewrite (isFirstElement_same_oid pre post marked plain) by reflexivity.
  replace (channelBonus artist marked) with (channelBonus artist plain)
    by reflexivity.
  replace (excludePenalty marked) with (-5)
    by (symmetry; eapply excludePenalty_found; eauto).
  replace (excludePenalty plain) with 0; [lia|].
  unfold excludePenalty, plain. simpl snippet_title.
  unfold excludeKeywords in Hnone. now rewrite Hnone.
Qed.

(** "Live" added to a title without excluded keywords: the score drops
    from 2 to -3. *)
Lemma exclude_keyword_witness :
  videoScore [studioPlain] (officialKeywords (toLowerCase "Artist"))
             (VStr "Artist") (VStr "Song") studioPlain = Ok 2
  /\ videoScore [studioMarked] (officialKeywords (toLowerCase "Artist"))
                (VStr "Artist") (VStr "Song") studioMarked = Ok (2 - 5).
Proof.
  destruct (exclude_keyword_lowers_score_by_5 [] [] studioPlain
              "Song " "Live" " (HD)" "Artist" "Song")
    as (s & Hplain & Hmarked);
    [vm_compute; set_solver | vm_compute; reflexivity..|].
  assert (s = 2) as -> by (vm_compute in Hplain; congruence).
  split; [exact Hplain | exact Hmarked].
Defined.

(** C6 as stated fails: "cover" added to a title that already holds
    "remix" leaves the score at -3; and "live" added to a title without
    any excluded keyword leaves the score at 2 when the artist is named
    "Live", since the title then gains the title-accuracy bonus. *)
Lemma second_excluded_keyword_changes_nothing :
  (toLowerCase "cover" ∈ excludeKeywords
   /\ snippet_title remixPlain = "Song Remix " +:+ ""
   /\ remixMarked = withTitle remixPlain ("Song Remix " +:+ "cover" +:+ "")
   /\ videoScore [remixPlain] (officialKeywords (toLowerCase "Artist"))
                 (VStr "Artist") (VStr "Song") remixPlain = Ok (-3)
   /\ videoScore [remixMarked] (officialKeywords (toLowerCase "Artist"))
                 (VStr "Artist") (VStr "Song") remixMarked = Ok (-3))
  /\ (toLowerCase "live" ∈ excludeKeywords
      /\ snippet_title bandPlain = "Song " +:+ ""
      /\ bandMarked = withTitle bandPlain ("Song " +:+ "live" +:+ "")
      /\ containsAny (toLowerCase (snippet_title bandPlain)) excludeKeywords = false
      /\ videoScore [bandPlain] (officialKeywords (toLowerCase "Live"))
                    (VStr "Live") (VStr "Song") bandPlain = Ok 2
      /\ videoScore [bandMarked] (officialKeywords (toLowerCase "Live"))
                    (VStr "Live") (VStr "Song") bandMarked = Ok 2).
Proof.
  repeat split; try (vm_compute; reflexivity); vm_compute; set_solver.
Qed.

End Penalty.

(** ** Waiting for the remote task *)

Section Polling.

Lemma inspectReply_inProgress (reply : PollReply) :
  inProgress reply -> inspectReply reply = Ok None.
Proof.
  unfold inProgress, replyStatus.
  destruct reply as [e|[| | | | | |props]]; try (intros [H|H]; discriminate).
  simpl. destruct (lookupProp "status" props) as [[| | | |s| |]|];
    try (intros [H|H]; discriminate).
  intros [[= ->]|[= ->]]; reflexivity.
Qed.

Lemma inspectReply_completed (reply : PollReply) :
  replyStatus reply = Some "completed" ->
  inspectReply reply = Ok (Some (replyResult reply)).
Proof.
  unfold replyStatus, replyResult.
  destruct reply as [e|[| | | | | |props]]; try discriminate.
  simpl. destruct (lookupProp "status" props) as [[| | | |s| |]|];
    try discriminate.
  intros [= ->]. reflexivity.
Qed.

Lemma inspectReply_failed (reply : PollReply) (remote : string) :
  replyStatus reply = Some "failed" ->
  toStringVal (replyError reply) = Ok remote ->
  inspectReply reply = Throw (Error (failedMessage remote)).
Proof.
  unfold replyStatus, replyError.
  destruct reply as [e|[| | | | | |props]]; try discriminate.
  simpl. destruct (lookupProp "status" props) as [[| | | |s| |]|];
    try discriminate.
  intros [= ->] Hremote. simpl. now rewrite Hremote.
Qed.

Lemma wait_eq (p p' a a' : nat) (w w' : Z) :
  p = p' -> a = a' -> w = w' -> mkWait p a w = mkWait p' a' w'.
Proof. now intros -> -> ->. Qed.

(** From any state: [k] replies in progress and then a completed one. *)
Lemma pollLoop_completes (replies : nat -> PollReply) (k : nat) :
  forall (budget : nat) (st : Wait),
  (k < budget)%nat ->
  (forall j : nat, (j < k)%nat -> inProgress (replies (polls st + j)%nat)) ->
  replyStatus (replies (polls st + k)%nat) = Some "completed" ->
  pollLoop replies budget st
  = (Ok (replyResult (replies (polls st + k)%nat)),
     mkWait (polls st + k + 1) (attempts st + k)
            (waitedMs st + 30000 * Z.of_nat k)).
Proof.
  induction k as [|k IH]; intros budget st Hk Hbefore Hdone;
    (destruct budget as [|budget]; [lia|]); cbn [pollLoop].
  - rewrite Nat.add_0_r in Hdone |- *.
    rewrite (inspectReply_completed _ Hdone).
    f_equal. apply wait_eq; lia.
  - rewrite (inspectReply_inProgress (replies (polls st))).
    2:{ specialize (Hbefore 0%nat). rewrite Nat.add_0_r in Hbefore.
        apply Hbefore. lia. }
    rewrite IH; cbn [polls attempts waitedMs].
    + replace (S (polls st) + k)%nat with (polls st + S k)%nat by lia.
      f_equal. apply wait_eq; lia.
    + lia.
    + intros j Hj. replace (S (polls st) + j)%nat with (polls st + S j)%nat by lia.
      apply Hbefore. lia.
    + now replace (S (polls st) + k)%nat with (polls st + S k)%nat by lia.
Qed.

(** From any state: nothing but replies in progress for the whole budget. *)
Lemma pollLoop_times_out (replies : nat -> PollReply) (budget : nat) :
  forall st : Wait,
  (forall j : nat, (j < budget)%nat -> inProgress (replies (polls st + j)%nat)) ->
  pollLoop replies budget st
  = (Throw (Error timeoutMessage),
     mkWait (polls st + budget) (attempts st + budget)
            (waitedMs st + 30000 * Z.of_nat budget)).
Proof.
  induction budget as [|budget IH]; intros st Hall; cbn [pollLoop].
  - f_equal. destruct st as [p a w]. apply wait_eq; cbn; lia.
  - rewrite (inspectReply_inProgress (replies (polls st))).
    2:{ specialize (Hall 0%nat). rewrite Nat.add_0_r in Hall. apply Hall. lia. }
    rewrite IH; cbn [polls attempts waitedMs].
    + f_equal. apply wait_eq; lia.
    + intros j Hj. replace (S (polls st) + j)%nat with (polls st + S j)%nat by lia.
      apply Hall. lia.
Qed.

(** C3.  When the replies to the first [k] status requests are pending or
    running and the next reply is completed, with [k] below the attempt
    budget, the wait returns that reply's result after exactly [k + 1]
    requests; no further request is sent.  This holds for every budget,
    and so for the [maxAttempts] of [waitForTaskCompletion]. *)
Theorem polling_stops_at_first_completed (api : TaskApi) (taskId : string)
    (budget k : nat) :
  (k < budget)%nat ->
  (forall j : nat, (j < k)%nat -> inProgress (api taskId j)) ->
  replyStatus (api taskId k) = Some "completed" ->
  pollLoop (api taskId) budget (mkWait 0 0 0)
  = (Ok (replyResult (api taskId k)), mkWait (k + 1) k (30000 * Z.of_nat k))
  /\ ((k < maxAttempts)%nat ->
      waitForTaskCompletion api taskId
      = (Ok (replyResult (api taskId k)), mkWait (k + 1) k (30000 * Z.of_nat k))).
Proof.
  intros Hk Hbefore Hdone. split; [|intros Hmax; unfold waitForTaskCompletion];
    rewrite (pollLoop_completes (api taskId) k); cbn [polls attempts waitedMs];
    auto; f_equal; apply wait_eq; lia.
Qed.

(** The status sequence pending, pending, completed with a budget of 5
    attempts: the result comes back after exactly 3 requests, and the
    rejection scripted for a 4th request is never seen. *)
Lemma polling_stops_witness :
  pollLoop (scripted [pendingTask; pendingTask; completedTask (VStr "credits")])
           5 (mkWait 0 0 0)
  = (Ok (VStr "credits"), mkWait 3 2 60000).
Proof.
  destruct (polling_stops_at_first_completed
              (fun _ => scripted [pendingTask; pendingTask;
                                  completedTask (VStr "credits")])
              "task-1" 5 2) as [Hrun _].
  - lia.
  - intros [|[|j]] Hj; [left; reflexivity..|lia].
  - reflexivity.
  - exact Hrun.
Defined.

(** A task that fails at the second request: the wait ends there with the
    remote error text in its message. *)
Example failed_task_is_reported :
  pollLoop (scripted [pendingTask; failedTask "quota exhausted"]) 5 (mkWait 0 0 0)
  = (Throw (Error "Task failed: quota exhausted"), mkWait 2 1 30000).
Proof. reflexivity. Qed.

(** C4.  When every reply within the attempt budget is pending or
    running, the wait sends exactly as many status requests as the budget
    allows and then throws the timeout error; with the [maxAttempts] of
    [waitForTaskCompletion] that is after 60 requests.  The message of
    the timeout error is fixed; it differs from the message thrown for a
    failed task, which carries the remote error text. *)
Theorem polling_times_out_after_budget (api : TaskApi) (taskId : string)
    (budget : nat) :
  (forall j : nat, (j < budget)%nat -> inProgress (api taskId j)) ->
  pollLoop (api taskId) budget (mkWait 0 0 0)
  = (Throw (Error timeoutMessage),
     mkWait budget budget (30000 * Z.of_nat budget))
  /\ (budget = maxAttempts ->
      waitForTaskCompletion api taskId
      = (Throw (Error timeoutMessage), mkWait 60 60 1800000))
  /\ (forall (reply : PollReply) (remote : string),
        replyStatus reply = Some "failed" ->
        toStringVal (replyError reply) = Ok remote ->
        inspectReply reply = Throw (Error (failedMessage remote))
        /\ Error (failedMessage remote) <> Error timeoutMessage).
Proof.
  intros Hall. split; [|split].
  - rewrite pollLoop_times_out; cbn [polls attempts waitedMs]; auto.
  - intros ->. unfold waitForTaskCompletion.
    rewrite pollLoop_times_out; cbn [polls attempts waitedMs]; auto.
  - intros reply remote Hfailed Hremote. split.
    + now apply inspectReply_failed.
    + unfold failedMessage, timeoutMessage. simpl. discriminate.
Qed.

(** A task that stays pending, with a budget of 3 attempts: exactly 3
    requests, then the timeout error. *)
Lemma polling_times_out_witness :
  pollLoop (fun _ => pendingTask) 3 (mkWait 0 0 0)
  = (Throw (Error "Task timeout: Credits collection took too long"),
     mkWait 3 3 90000).
Proof.
  destruct (polling_times_out_after_budget (fun _ _ => pendingTask) "task-1" 3)
    as [Hrun _].
  - intros j Hj. left. reflexivity.
  - exact Hrun.
Defined.

End Polling.

(** ** Objects *)

Section Objects.

Lemma lookupProp_setProp_eq (key : string) (v : Val) (props : Obj) :
  lookupProp key (setProp key v props) = Some v.
Proof.
  induction props as [|[k w] rest IH]; simpl.
  - now rewrite String.eqb_refl.
  - destruct (String.eqb k key) eqn:E; simpl; rewrite E; [reflexivity | exact IH].
Qed.

Lemma lookupProp_setProp_ne (key other : string) (v : Val) (props : Obj) :
  key <> other -> lookupProp other (setProp key v props) = lookupProp other props.
Proof.
  intros Hne. induction props as [|[k w] rest IH]; simpl.
  - destruct (String.eqb_spec key other); [contradiction | reflexivity].
  - destruct (String.eqb_spec k key) as [->|Hk]; simpl.
    + destruct (String.eqb_spec key other); [contradiction | reflexivity].
    + now rewrite IH.
Qed.

Lemma setProp_setProp (key : string) (v w : Val) (props : Obj) :
  setProp key v (setProp key w props) = setProp key v props.
Proof.
  induction props as [|[k x] rest IH]; simpl.
  - now rewrite String.eqb_refl.
  - destruct (String.eqb k key) eqn:E; simpl; rewrite E; [reflexivity|].
    now rewrite IH.
Qed.

Lemma setProp_fresh (key : string) (v : Val) (props : Obj) :
  lookupProp key props = None -> setProp key v props = props ++ [(key, v)].
Proof.
  induction props as [|[k x] rest IH]; simpl; [reflexivity|].
  destruct (String.eqb k key); [discriminate|].
  intros H. now rewrite IH.
Qed.

Lemma setProp_present (key : string) (v old : Val) (props : Obj) :
  lookupProp key props = Some old ->
  exists pre post,
    props = pre ++ (key, old) :: post /\ lookupProp key pre = None
    /\ setProp key v props = pre ++ (key, v) :: post.
Proof.
  induction props as [|[k x] rest IH]; simpl; [discriminate|].
  destruct (String.eqb k key) eqn:Hk.
  - apply String.eqb_eq in Hk as ->. intros [= ->].
    exists [], rest. repeat split.
  - intros (pre & post & -> & Hpre & ->)%IH.
    exists ((k, x) :: pre), post. simpl. rewrite Hk. repeat split. exact Hpre.
Qed.

Lemma getProp_field (v : Val) (key : string) :
  nullish v = false -> getProp v key = Ok (field v key).
Proof. destruct v; simpl; (discriminate || reflexivity). Qed.

Lemma field_assign_ne (item : Val) (key other : string) (v : Val) :
  key <> other -> field (assign item key v) other = field item other.
Proof.
  intros Hne. destruct item; simpl; try reflexivity.
  now rewrite lookupProp_setProp_ne.
Qed.

Lemma assign_assign (item : Val) (key : string) (v w : Val) :
  assign (assign item key w) key v = assign item key v.
Proof. destruct item; simpl; try reflexivity. now rewrite setProp_setProp. Qed.

End Objects.

(** ** Validation of the credits payload *)

Section Validation.

Lemma hasRequired_object (item : Val) :
  hasRequired item = true -> exists props, item = VObj props.
Proof. destruct item; try discriminate. eauto. Qed.

Lemma missingRequired_spec (item : Val) :
  nullish item = false -> missingRequired item = Ok (negb (hasRequired item)).
Proof.
  intros Hn. unfold missingRequired, hasRequired.
  rewrite !(getProp_field _ _ Hn). run_bind.
  destruct (truthy (field item "rank")); cbn [negb andb]; [|reflexivity].
  run_bind.
  destruct (truthy (field item "artist")); cbn [negb andb]; reflexivity.
Qed.

Lemma keepCredit_total (line : Val) :
  nullish line = false -> exists keep, keepCredit line = Ok keep.
Proof.
  intros Hn. unfold keepCredit. rewrite !(getProp_field _ _ Hn).
  run_bind. destruct (negb (truthy (field line "role"))); eauto.
Qed.

Lemma filterM_keepCredit_total (lines : list Val) :
  forallb (fun line => negb (nullish line)) lines = true ->
  exists kept, filterM keepCredit lines = Ok kept.
Proof.
  induction lines as [|line rest IH]; simpl; [eauto|].
  intros [Hline Hrest]%andb_true_iff.
  destruct (keepCredit_total line) as [keep ->];
    [now destruct (nullish line)|].
  destruct (IH Hrest) as [kept ->]. run_bind. eauto.
Qed.

Lemma filterM_keepCredit_throws (lines : list Val) :
  forallb (fun line => negb (nullish line)) lines = false ->
  exists e, filterM keepCredit lines = Throw e.
Proof.
  induction lines as [|line rest IH]; simpl; [discriminate|].
  destruct (nullish line) eqn:Hline; simpl.
  - intros _. destruct line; try discriminate; cbn; eauto.
  - intros Hrest. destruct (keepCredit_total line Hline) as [keep ->].
    destruct (IH Hrest) as [e ->]. cbn. eauto.
Qed.

(** An item outside [cleanable] makes the callback throw. *)
Lemma cleanItem_throws (item : Val) :
  cleanable item = false -> exists e, cleanItem item = Throw e.
Proof.
  unfold cleanable. destruct (nullish item) eqn:Hn; simpl.
  - intros _. destruct item; try discriminate; cbn; eauto.
  - destruct (hasRequired item) eqn:Hreq; [|discriminate]. intros Hshape.
    unfold cleanItem. rewrite (missingRequired_spec _ Hn), Hreq.
    cbn [negb mbind exc_bind]. rewrite !(getProp_field _ _ Hn).
    run_bind. unfold cleanCredits.
    assert (printable (field item "artist") && printable (field item "title")
            = false ->
            exists e,
              (_ ← toStringVal (field item "artist");
               _ ← toStringVal (field item "title");
               kept ← filterM keepCredit [];
               Ok (assign (assign item "credits" (VArr [])) "credits" (VArr kept)))
              = Throw e) as Hother.
    { unfold printable.
      destruct (toStringVal (field item "artist")); cbn; [|eauto].
      destruct (toStringVal (field item "title")); cbn; [discriminate | eauto]. }
    destruct (field item "credits") as [| | | | |lines|];
      try (apply (Hother Hshape)).
    destruct (filterM_keepCredit_throws lines Hshape) as [e ->]. cbn. eauto.
Qed.

(** An item without its required fields is mapped to [null]. *)
Lemma cleanItem_dropped (item : Val) :
  cleanable item = true -> hasRequired item = false -> cleanItem item = Ok VNull.
Proof.
  unfold cleanable. intros [Hn _]%andb_true_iff Hreq.
  apply negb_true_iff in Hn.
  unfold cleanItem. rewrite (missingRequired_spec _ Hn), Hreq. reflexivity.
Qed.

(** An item with its required fields is returned with only its [credits]
    replaced. *)
Lemma cleanItem_kept (item : Val) :
  cleanable item = true -> hasRequired item = true ->
  exists lines, cleanItem item = Ok (assign item "credits" (VArr lines)).
Proof.
  unfold cleanable. intros [Hn Hshape]%andb_true_iff Hreq.
  apply negb_true_iff in Hn. rewrite Hreq in Hshape.
  unfold cleanItem. rewrite (missingRequired_spec _ Hn), Hreq.
  cbn [negb mbind exc_bind]. rewrite !(getProp_field _ _ Hn).
  run_bind. unfold cleanCredits.
  assert (
    printable (field item "artist") && printable (field item "title") = true ->
    exists lines,
      (_ ← toStringVal (field item "artist");
       _ ← toStringVal (field item "title");
       kept ← filterM keepCredit [];
       Ok (assign (assign item "credits" (VArr [])) "credits" (VArr kept)))
      = Ok (assign item "credits" (VArr lines))) as Hother.
  { intros [Ha Ht]%andb_true_iff. unfold printable in Ha, Ht.
    destruct (toStringVal (field item "artist")); [|discriminate].
    destruct (toStringVal (field item "title")); [|discriminate].
    cbn. rewrite assign_assign. eauto. }
  destruct (field item "credits") as [| | | | |lines|]; try (apply (Hother Hshape)).
  destruct (filterM_keepCredit_total lines Hshape) as [kept ->].
  run_bind. eauto.
Qed.

Lemma assign_notNull (item : Val) (key : string) (v : Val) :
  hasRequired item = true -> notNull (assign item key v) = true.
Proof. intros [props ->]%hasRequired_object. reflexivity. Qed.

Lemma identity_assign_credits (item : Val) (v : Val) :
  identity (assign item "credits" v) = identity item.
Proof. unfold identity. now rewrite !field_assign_ne by discriminate. Qed.

Lemma mapM_cleanItem_spec (items : list Val) :
  Forall (fun item => cleanable item = true) items ->
  exists mapped, mapM cleanItem items = Ok mapped /\
    Forall2 (fun o i => exists lines, o = assign i "credits" (VArr lines))
            (List.filter notNull mapped) (List.filter hasRequired items).
Proof.
  induction 1 as [|item rest Hitem _ (mapped & Hmapped & Hrel)]; simpl.
  - exists []. split; [reflexivity | constructor].
  - rewrite Hmapped. destruct (hasRequired item) eqn:Hreq.
    + destruct (cleanItem_kept item Hitem Hreq) as [lines ->].
      run_bind. eexists. split; [reflexivity|].
      simpl. rewrite (assign_notNull _ _ _ Hreq). constructor; eauto.
    + rewrite (cleanItem_dropped item Hitem Hreq).
      run_bind. eexists. split; [reflexivity | exact Hrel].
Qed.

Lemma sublist_map_filter {A B} (f : A -> B) (p : A -> bool) (l : list A) :
  sublist (map f (List.filter p l)) (map f l).
Proof.
  induction l as [|x l IH]; simpl; [constructor|].
  destruct (p x); simpl; now constructor.
Qed.

(** On an array payload none of whose items is [null] (nor a credit line
    of an item with its required fields, and whose items without a
    credits array have a printable artist and title), the validation
    returns, position by position, the input entries that have a rank, an
    artist and a title, in input order, each with only its credits
    replaced; the other entries are dropped. *)
Theorem validateAndCleanCredits_keeps_order (items : list Val) :
  Forall (fun item => cleanable item = true) items ->
  exists out, validateAndCleanCredits (VArr items) = Ok out /\
    Forall2 (fun o i => exists lines, o = assign i "credits" (VArr lines))
            out (List.filter hasRequired items) /\
    sublist (map identity out) (map identity items).
Proof.
  intros Hitems.
  destruct (mapM_cleanItem_spec items Hitems) as (mapped & Hmapped & Hrel).
  unfold validateAndCleanCredits. rewrite Hmapped. run_bind.
  eexists. split; [reflexivity|]. split; [exact Hrel|].
  replace (map identity (List.filter notNull mapped))
    with (map identity (List.filter hasRequired items)).
  - apply sublist_map_filter.
  - clear -Hrel. induction Hrel as [|o i out kept [lines ->] _ IH]; simpl;
      [reflexivity|].
    now rewrite identity_assign_credits, IH.
Qed.

(** Three entries, the second without a title: the first and the third
    come back in that order. *)
Lemma validateAndCleanCredits_witness :
  exists out,
    validateAndCleanCredits (VArr [entryOne; entryNoTitle; entryThree]) = Ok out
    /\ map identity out = [identity entryOne; identity entryThree].
Proof.
  destruct (validateAndCleanCredits_keeps_order
              [entryOne; entryNoTitle; entryThree])
    as (out & Hout & Hrel & _).
  - repeat constructor.
  - exists out. split; [exact Hout|].
    vm_compute in Hout. injection Hout as <-. reflexivity.
Defined.

(** The condition of the theorem is the weakest one: a payload with an
    item outside [cleanable] makes the validation throw. *)
Lemma validateAndCleanCredits_aborts (items : list Val) :
  Exists (fun item => cleanable item = false) items ->
  exists e, validateAndCleanCredits (VArr items) = Throw e.
Proof.
  intros Hsome. unfold validateAndCleanCredits.
  assert (exists e, mapM cleanItem items = Throw e) as [e ->]; [|cbn; eauto].
  induction Hsome as [item rest Hitem|item rest _ [e IH]]; simpl.
  - destruct (cleanItem_throws item Hitem) as [e ->]. cbn. eauto.
  - rewrite IH. destruct (cleanItem item); cbn; eauto.
Qed.

(** C7.  The validation drops the items of other types that lack the
    required fields (a number, a string, an empty object) and keeps the
    entries around them in order, but an item that is [null] is not
    dropped: reading its rank throws and nothing is returned for the
    whole payload. *)
Theorem null_item_aborts_validation :
  validateAndCleanCredits (VArr [VNum 5; VStr "str"; VObj []; entryOne; entryThree])
  = Ok [cleanedEntry entryOne; cleanedEntry entryThree]
  /\ validateAndCleanCredits (VArr [VNull; entryOne; entryThree])
     = Throw (TypeError "Cannot read properties of null (reading 'rank')").
Proof. split; vm_compute; reflexivity. Qed.

End Validation.

(** ** Enrichment of the credited entries *)

Section Enrichment.

Variable api : SearchApi.

Lemma creditedEntry_object (item : Val) :
  creditedEntry item = true -> exists props, item = VObj props.
Proof. destruct item; try discriminate. eauto. Qed.

Lemma creditedEntry_printable (item : Val) :
  creditedEntry item = true ->
  nullish item = false
  /\ (exists rank, toStringVal (field item "rank") = Ok rank)
  /\ (exists artist, toStringVal (field item "artist") = Ok artist)
  /\ (exists title, toStringVal (field item "title") = Ok title).
Proof.
  intros H. destruct (creditedEntry_object item H) as [props ->].
  unfold creditedEntry, printable in H.
  apply andb_true_iff in H as [[Hr Ha]%andb_true_iff Ht].
  split; [reflexivity|].
  destruct (toStringVal (field (VObj props) "rank")); [|discriminate].
  destruct (toStringVal (field (VObj props) "artist")); [|discriminate].
  destruct (toStringVal (field (VObj props) "title")); [|discriminate].
  repeat split; eexists; reflexivity.
Qed.

Lemma progressLine_total (item : Val) (total : nat) :
  creditedEntry item = true -> exists line, progressLine item total = Ok line.
Proof.
  intros (Hn & [r Hr] & [a Ha] & [t Ht])%creditedEntry_printable.
  unfold progressLine. rewrite !(getProp_field _ _ Hn).
  run_bind. rewrite Hr. run_bind.
  rewrite Ha. run_bind. rewrite Ht. run_bind. eauto.
Qed.

(** The search of a credited entry never throws: a failure becomes [null]. *)
Lemma searchYouTubeVideo_entry `{folding : CaseFolding}
    (item : Val) (calls : nat) :
  creditedEntry item = true ->
  searchYouTubeVideo api calls (field item "artist") (field item "title")
  = (Ok (youtubeFor api calls item), S calls).
Proof.
  intros (Hn & _ & [a Ha] & [t Ht])%creditedEntry_printable.
  unfold searchYouTubeVideo, youtubeFor, queryFor, queryOf.
  rewrite Ha, Ht. run_bind.
  now destruct (searchAttempt _ _ _).
Qed.

Lemma processItem_entry `{folding : CaseFolding}
    (total i : nat) (item : Val) (st : Run) :
  creditedEntry item = true ->
  exists slept,
    processItem api total i item st
    = (Ok (mkRun (results st ++ [withYoutube item (youtubeFor api (apiCalls st) item)])
                 (S (apiCalls st)) slept),
       S (apiCalls st)).
Proof.
  intros H. pose proof (creditedEntry_printable item H) as (Hn & _).
  unfold processItem. rewrite !(getProp_field _ _ Hn).
  rewrite (searchYouTubeVideo_entry item _ H). eauto.
Qed.

Lemma run_eq (r r' : list Val) (c c' : nat) (s s' : Z) :
  r = r' -> c = c' -> s = s' -> mkRun r c s = mkRun r' c' s'.
Proof. now intros -> -> ->. Qed.

(** The loop over credited entries runs to the end and appends one result
    per entry, the [k]-th of them from the reply to its own request. *)
Lemma collectLoop_spec `{folding : CaseFolding}
    (total : nat) (remaining : list Val) :
  Forall (fun item => creditedEntry item = true) remaining ->
  forall (i : nat) (st : Run),
  exists slept,
    collectLoop api total remaining i st
    = Ok (mkRun (results st
                   ++ imap (fun k item =>
                              withYoutube item (youtubeFor api (apiCalls st + k) item))
                           remaining)
                (apiCalls st + length remaining) slept).
Proof.
  induction 1 as [|item rest Hitem _ IH]; intros i st; cbn [collectLoop].
  - exists (sleptMs st). destruct st as [r c s]. cbn.
    rewrite app_nil_r, Nat.add_0_r. reflexivity.
  - destruct (progressLine_total item total Hitem) as [line ->].
    run_bind.
    destruct (processItem_entry total i item st Hitem) as [slept ->].
    destruct (IH (S i) (mkRun (results st ++ [withYoutube item (youtubeFor api (apiCalls st) item)])
                              (S (apiCalls st)) slept)) as [slept' ->].
    exists slept'. cbn [results apiCalls imap length].
    rewrite <- app_assoc, Nat.add_0_r. cbn [app].
    f_equal. apply run_eq; [|lia|reflexivity].
    do 2 f_equal. apply imap_ext. intros k x _. unfold compose.
    now replace (apiCalls st + S k)%nat with (S (apiCalls st) + k)%nat by lia.
Qed.

Lemma collectAllYouTubeLinks_spec `{folding : CaseFolding}
    (creditsData : list Val) :
  Forall (fun item => creditedEntry item = true) creditsData ->
  exists slept,
    collectAllYouTubeLinks api creditsData
    = Ok (mkRun (imap (fun k item => withYoutube item (youtubeFor api k item))
                      creditsData)
                (length creditsData) slept).
Proof.
  intros H. unfold collectAllYouTubeLinks.
  destruct (collectLoop_spec (length creditsData) creditsData H 0 (mkRun [] 0 0))
    as [slept ->].
  exists slept. reflexivity.
Qed.

Lemma youtubeFor_noUsableCandidate `{folding : CaseFolding}
    (n : nat) (item : Val) (query : string) :
  queryFor item = Ok query ->
  noUsableCandidate (api n query) item ->
  youtubeFor api n item = VNull.
Proof.
  unfold youtubeFor, noUsableCandidate. intros -> Hno.
  destruct (api n query) as [e|videos]; cbn [searchAttempt]; [reflexivity|].
  destruct (length videos =? 0)%nat; [reflexivity|].
  destruct (findBestVideo videos _ _) as [[w|]|e]; run_bind;
    [|reflexivity..].
  now destruct (Hno w).
Qed.

Lemma youtubeFor_shape `{folding : CaseFolding} (n : nat) (item : Val) :
  youtubeFor api n item = VNull \/ exists v, youtubeFor api n item = videoMatch v.
Proof.
  unfold youtubeFor. destruct (queryFor item) as [query|e]; [|now left].
  destruct (api n query) as [e|videos]; cbn [searchAttempt]; [now left|].
  destruct (length videos =? 0)%nat; [now left|].
  destruct (findBestVideo videos _ _) as [[w|]|e]; run_bind;
    [right; eauto | now left..].
Qed.

End Enrichment.

Section EnrichmentClaims.

(** C8, as the code has it.  Over a list of entries that are objects with
    a printable rank, artist and title, the collection runs to the end
    and records one result per entry, each from the reply to the entry's
    own request.  An entry whose search is rejected, or yields no usable
    candidate, is recorded with [youtube = null]; this holds for every
    entry whatever happened to the searches before it. *)
Theorem search_failures_are_isolated `{folding : CaseFolding} (api : SearchApi)
    (creditsData : list Val) :
  Forall (fun item => creditedEntry item = true) creditsData ->
  exists run, collectAllYouTubeLinks api creditsData = Ok run /\
    length (results run) = length creditsData /\
    forall (i : nat) (item : Val), creditsData !! i = Some item ->
      results run !! i = Some (withYoutube item (youtubeFor api i item)) /\
      field (withYoutube item (youtubeFor api i item)) "youtube"
        = youtubeFor api i item /\
      (forall query, queryFor item = Ok query ->
         noUsableCandidate (api i query) item -> youtubeFor api i item = VNull).
Proof.
  intros Hentries.
  destruct (collectAllYouTubeLinks_spec api creditsData Hentries) as [slept ->].
  eexists. split; [reflexivity|]. cbn [results]. split.
  - apply length_imap.
  - intros i item Hi. split; [|split].
    + now rewrite list_lookup_imap, Hi.
    + unfold withYoutube, field. now rewrite lookupProp_setProp_eq.
    + intros query Hq Hno. eapply youtubeFor_noUsableCandidate; eauto.
Qed.

(** The first request is rejected, the second finds the official video:
    the first entry is recorded without a match and the second with one. *)
Lemma search_failures_witness :
  exists run,
    collectAllYouTubeLinks flakyApi [entryOne; entryThree] = Ok run
    /\ results run = [ withYoutube entryOne VNull;
                       withYoutube entryThree (videoMatch officialVideo) ].
Proof.
  destruct (search_failures_are_isolated flakyApi [entryOne; entryThree])
    as (run & Hrun & _ & _).
  - repeat constructor.
  - exists run. split; [exact Hrun|].
    vm_compute in Hrun. injection Hrun as <-. reflexivity.
Defined.

(** C8 as stated fails: an entry whose artist cannot be printed passes
    the validation, and then stops the collection at its progress line;
    the function does not complete, and neither the entry before it nor
    the entry after it is recorded. *)
Lemma unprintable_entry_stops_collection :
  validateAndCleanCredits (VArr [entryThree; unprintableEntry; entryOne])
  = Ok [cleanedEntry entryThree; unprintableEntry; cleanedEntry entryOne]
  /\ collectAllYouTubeLinks flakyApi
       [cleanedEntry entryThree; unprintableEntry; cleanedEntry entryOne]
     = Throw (TypeError "Cannot convert object to primitive value").
Proof. split; vm_compute; reflexivity. Qed.

(** C10, as the code has it.  Over a list of entries that are objects
    with a printable rank, artist and title, the output has the length and
    the order of the input: the result at each position is the entry at
    that position with every field other than [youtube] unchanged and
    the field [youtube] set to a video match or to [null].  For an entry
    without a [youtube] field the result is the entry followed by that
    one field; a [youtube] field of the entry is replaced where it
    stands. *)
Theorem enrichment_preserves_entries `{folding : CaseFolding} (api : SearchApi)
    (creditsData : list Val) :
  Forall (fun item => creditedEntry item = true) creditsData ->
  exists run, collectAllYouTubeLinks api creditsData = Ok run /\
    length (results run) = length creditsData /\
    forall (i : nat) (props : Obj), creditsData !! i = Some (VObj props) ->
      exists (out : Obj) (y : Val),
        results run !! i = Some (VObj out) /\
        lookupProp "youtube" out = Some y /\
        (y = VNull \/ exists v, y = videoMatch v) /\
        (forall key, key <> "youtube" -> lookupProp key out = lookupProp key props) /\
        (lookupProp "youtube" props = None -> out = props ++ [("youtube", y)]) /\
        (forall old, lookupProp "youtube" props = Some old ->
           exists pre post,
             props = pre ++ ("youtube", old) :: post
             /\ lookupProp "youtube" pre = None
             /\ out = pre ++ ("youtube", y) :: post).
Proof.
  intros Hentries.
  destruct (collectAllYouTubeLinks_spec api creditsData Hentries) as [slept ->].
  eexists. split; [reflexivity|]. cbn [results]. split.
  - apply length_imap.
  - intros i props Hi.
    exists (setProp "youtube" (youtubeFor api i (VObj props)) props),
           (youtubeFor api i (VObj props)).
    split; [now rewrite list_lookup_imap, Hi|].
    split; [apply lookupProp_setProp_eq|].
    split; [apply youtubeFor_shape|].
    split; [|split].
    + intros key Hkey. apply lookupProp_setProp_ne. congruence.
    + apply setProp_fresh.
    + intros old. apply setProp_present.
Qed.

(** Two entries in, two entries out, in the same order, each followed by
    its [youtube] field. *)
Lemma enrichment_preserves_witness :
  exists run,
    collectAllYouTubeLinks flakyApi [entryOne; entryThree] = Ok run
    /\ length (results run) = 2%nat
    /\ option_map (fun r => field r "album") (results run !! 0%nat)
       = Some (VStr "C")
    /\ option_map identity (results run !! 1%nat) = Some (identity entryThree).
Proof.
  destruct (enrichment_preserves_entries flakyApi [entryOne; entryThree])
    as (run & Hrun & Hlen & _).
  - repeat constructor.
  - exists run. split; [exact Hrun|]. split; [exact Hlen|].
    vm_compute in Hrun. injection Hrun as <-. split; reflexivity.
Defined.

(** C10 as stated fails: the [youtube] field that an entry already has
    does not come out unchanged, it is overwritten with the result of the
    search; and a list with an item that is [null] has no output list at
    all. *)
Lemma existing_youtube_field_is_replaced :
  field entryWithVideo "youtube" = VStr "stale"
  /\ (exists run,
        collectAllYouTubeLinks flakyApi [entryWithVideo] = Ok run
        /\ results run
           = [ VObj [ ("rank", VNum 4); ("youtube", VNull); ("artist", VStr "G");
                      ("title", VStr "H") ] ])
  /\ collectAllYouTubeLinks flakyApi [entryThree; VNull; entryOne]
     = Throw (TypeError "Cannot read properties of null (reading 'rank')").
Proof.
  split; [reflexivity|]. split; [|vm_compute; reflexivity].
  eexists. split; vm_compute; reflexivity.
Qed.

End EnrichmentClaims.

(** ** Snapshots *)

Section Snapshots.


Lemma readFile_written (path : string) (doc : Val) (files : Files) :
  readFile path (writeFile path doc files) = Ok (jsonRoundTrip doc).
Proof. unfold readFile, writeFile, Files in *. now rewrite lookup_insert_eq. Qed.

(** Serialisation gives back a value that holds no [undefined]. *)
Lemma jsonRoundTrip_pure : forall v : Val, pureJson v = true -> jsonRoundTrip v = v.
Proof.
  fix IH 1. intros [| | | | |items|props]; simpl;
    try reflexivity; try discriminate.
  - intros H. f_equal. revert items H. fix IHitems 1.
    intros [|x rest]; [reflexivity|].
    intros [Hx Hrest]%andb_true_iff.
    rewrite (IHitems rest Hrest).
    pose proof (IH x Hx) as Ex.
    destruct x; try discriminate; try reflexivity; now rewrite Ex.
  - intros H. f_equal. revert props H. fix IHprops 1.
    intros [|[k x] rest]; [reflexivity|].
    intros [Hx Hrest]%andb_true_iff.
    rewrite (IHprops rest Hrest).
    pose proof (IH x Hx) as Ex.
    destruct x; try discriminate; try reflexivity; now rewrite Ex.
Qed.



End Snapshots.

(** * Further properties of the scripts *)

(** ** What the validation returns *)

Section CleanedPayload.

Lemma keepCredit_spec (line : Val) :
  nullish line = false -> keepCredit line = Ok (wellFormedLine line).
Proof.
  intros Hn. unfold keepCredit, wellFormedLine.
  rewrite !(getProp_field _ _ Hn). run_bind.
  destruct (truthy (field line "role")); cbn [negb].
  - run_bind. f_equal.
    destruct (truthy (field line "people")), (isString (field line "role")),
      (isString (field line "people")); reflexivity.
  - now rewrite andb_false_r.
Qed.

Lemma filterM_keepCredit_spec (lines : list Val) :
  forallb (fun line => negb (nullish line)) lines = true ->
  filterM keepCredit lines = Ok (List.filter wellFormedLine lines).
Proof.
  induction lines as [|line rest IH]; simpl; [reflexivity|].
  intros [Hline Hrest]%andb_true_iff. apply negb_true_iff in Hline.
  rewrite (keepCredit_spec _ Hline), (IH Hrest). reflexivity.
Qed.

Lemma cleanItem_cleanedEntry (item : Val) :
  cleanable item = true -> hasRequired item = true ->
  cleanItem item = Ok (cleanedEntry item).
Proof.
  unfold cleanable, cleanedEntry, cleanedCredits.
  intros [Hn Hshape]%andb_true_iff Hreq.
  apply negb_true_iff in Hn. rewrite Hreq in Hshape.
  unfold cleanItem. rewrite (missingRequired_spec _ Hn), Hreq.
  cbn [negb]. run_bind. rewrite !(getProp_field _ _ Hn). run_bind.
  unfold cleanCredits.
  destruct (field item "credits") as [| | | | |lines|];
    try (apply andb_true_iff in Hshape as [Ha Ht]; unfold printable in Ha, Ht;
         destruct (toStringVal (field item "artist")); [|discriminate];
         destruct (toStringVal (field item "title")); [|discriminate];
         cbn; now rewrite assign_assign).
  now rewrite (filterM_keepCredit_spec lines Hshape).
Qed.

Lemma mapM_cleanItem_exact (items : list Val) :
  Forall (fun item => cleanable item = true) items ->
  exists mapped, mapM cleanItem items = Ok mapped /\
    List.filter notNull mapped = map cleanedEntry (List.filter hasRequired items).
Proof.
  induction 1 as [|item rest Hitem _ (mapped & Hmapped & Hrel)]; simpl.
  - exists []. split; reflexivity.
  - rewrite Hmapped. destruct (hasRequired item) eqn:Hreq.
    + rewrite (cleanItem_cleanedEntry item Hitem Hreq). run_bind.
      eexists. split; [reflexivity|]. simpl.
      unfold cleanedEntry at 1. rewrite (assign_notNull _ _ _ Hreq).
      simpl. now rewrite Hrel.
    + rewrite (cleanItem_dropped item Hitem Hreq). run_bind.
      eexists. split; [reflexivity | exact Hrel].
Qed.

(** X1.  On an array payload the validation can inspect (no item is
    [null]; of an item with its required fields no credit line is
    [null], and when its [credits] is not an array its artist and title
    can be printed), the result is exactly the entries that have rank,
    artist and title, in input order, each with its [credits] replaced by
    those of its lines whose role and people are both non-empty strings,
    and by the empty array when [credits] is not an array. *)
Theorem validateAndCleanCredits_exact (items : list Val) :
  Forall (fun item => cleanable item = true) items ->
  validateAndCleanCredits (VArr items)
  = Ok (map cleanedEntry (List.filter hasRequired items)).
Proof.
  intros Hitems.
  destruct (mapM_cleanItem_exact items Hitems) as (mapped & Hmapped & Hrel).
  unfold validateAndCleanCredits. rewrite Hmapped. run_bind. now rewrite Hrel.
Qed.

(** The first sample entry loses its line with an empty role; the entry
    without a credits array gets an empty one. *)
Lemma validateAndCleanCredits_exact_witness :
  validateAndCleanCredits (VArr [entryOne; entryNoTitle; entryThree])
  = Ok [ Manus.assign entryOne "credits"
           (VArr [VObj [("role", VStr "PRODUCER"); ("people", VStr "X")]]);
         Manus.assign entryThree "credits" (VArr []) ].
Proof.
  rewrite (validateAndCleanCredits_exact [entryOne; entryNoTitle; entryThree]).
  - reflexivity.
  - repeat constructor.
Defined.

End CleanedPayload.

Section CleanedInvariant.

Lemma wellFormedLine_not_nullish (line : Val) :
  wellFormedLine line = true -> nullish line = false.
Proof. destruct line; (discriminate || reflexivity). Qed.

Lemma field_assign_eq (props : Obj) (key : string) (v : Val) :
  field (Manus.assign (VObj props) key v) key = v.
Proof. simpl. now rewrite lookupProp_setProp_eq. Qed.

Lemma filter_filter_same {A} (p : A -> bool) (l : list A) :
  List.filter p (List.filter p l) = List.filter p l.
Proof.
  induction l as [|x l IH]; simpl; [reflexivity|].
  destruct (p x) eqn:E; simpl; [rewrite E, IH|]; auto.
Qed.

Lemma hasRequired_cleanedEntry (item : Val) :
  hasRequired (cleanedEntry item) = hasRequired item.
Proof.
  unfold hasRequired, cleanedEntry.
  now rewrite !field_assign_ne by discriminate.
Qed.

Lemma credits_cleanedEntry (item : Val) :
  hasRequired item = true ->
  field (cleanedEntry item) "credits" = VArr (cleanedCredits item).
Proof.
  intros [props ->]%hasRequired_object. apply field_assign_eq.
Qed.

Lemma cleanedCredits_wellFormed (item : Val) :
  Forall (fun line => wellFormedLine line = true) (cleanedCredits item).
Proof.
  unfold cleanedCredits. destruct (field item "credits"); try constructor.
  apply Forall_forall. intros line Hin%list_elem_of_In.
  now apply filter_In in Hin as [_ Hin].
Qed.

Lemma cleanedEntry_idempotent (item : Val) :
  hasRequired item = true -> cleanedEntry (cleanedEntry item) = cleanedEntry item.
Proof.
  intros Hreq. unfold cleanedEntry at 1.
  unfold cleanedCredits at 1. rewrite (credits_cleanedEntry _ Hreq).
  replace (List.filter wellFormedLine (cleanedCredits item))
    with (cleanedCredits item).
  - unfold cleanedEntry. apply assign_assign.
  - unfold cleanedCredits. destruct (field item "credits"); try reflexivity.
    now rewrite filter_filter_same.
Qed.

Lemma cleanable_cleanedEntry (item : Val) :
  hasRequired item = true -> cleanable (cleanedEntry item) = true.
Proof.
  intros Hreq. unfold cleanable.
  rewrite hasRequired_cleanedEntry, Hreq, (credits_cleanedEntry _ Hreq).
  apply andb_true_iff. split.
  - destruct (hasRequired_object _ Hreq) as [props ->]. reflexivity.
  - apply forallb_forall. intros line Hin.
    pose proof (cleanedCredits_wellFormed item) as Hall.
    rewrite Forall_forall in Hall.
    apply list_elem_of_In in Hin.
    now rewrite (wellFormedLine_not_nullish _ (Hall _ Hin)).
Qed.

Lemma mapM_cleanItem_ok (items mapped : list Val) :
  mapM cleanItem items = Ok mapped ->
  Forall (fun item => cleanable item = true) items.
Proof.
  revert mapped. induction items as [|item rest IH]; intros mapped;
    [constructor|]. simpl.
  destruct (cleanable item) eqn:Hc.
  - destruct (cleanItem item); [|discriminate]. run_bind.
    destruct (mapM cleanItem rest) eqn:Hrest; [|discriminate].
    intros _. constructor; [exact Hc | eapply IH; reflexivity].
  - destruct (cleanItem_throws item Hc) as [e ->]. discriminate.
Qed.

Lemma validateAndCleanCredits_ok (payload : Val) (out : list Val) :
  validateAndCleanCredits payload = Ok out ->
  exists items, payload = VArr items
    /\ Forall (fun item => cleanable item = true) items
    /\ out = map cleanedEntry (List.filter hasRequired items).
Proof.
  intros Hout. destruct payload as [| | | | |items|]; try discriminate.
  exists items. split; [reflexivity|].
  assert (Forall (fun item => cleanable item = true) items) as Hitems.
  { unfold validateAndCleanCredits in Hout.
    destruct (mapM cleanItem items) eqn:Hm; [|discriminate].
    eapply mapM_cleanItem_ok, Hm. }
  split; [exact Hitems|].
  rewrite (validateAndCleanCredits_exact items Hitems) in Hout. congruence.
Qed.

(** X2.  Whatever the validation returns is a list of credited entries:
    each has a non-empty rank, artist and title and an array [credits]
    all of whose lines have a non-empty string role and people. *)
Theorem validated_entries_are_well_formed (payload : Val) (out : list Val) :
  validateAndCleanCredits payload = Ok out ->
  Forall (fun entry =>
            hasRequired entry = true
            /\ exists lines, field entry "credits" = VArr lines
                 /\ Forall (fun line => wellFormedLine line = true) lines) out.
Proof.
  intros (items & -> & _ & ->)%validateAndCleanCredits_ok.
  apply Forall_forall. intros entry Hin%list_elem_of_In.
  apply in_map_iff in Hin as (item & <- & Hitem).
  apply filter_In in Hitem as [_ Hreq].
  split; [now rewrite hasRequired_cleanedEntry|].
  exists (cleanedCredits item). split.
  - now apply credits_cleanedEntry.
  - apply cleanedCredits_wellFormed.
Qed.

(** The cleaned sample payload: both entries are well formed. *)
Lemma validated_entries_witness :
  Forall (fun entry =>
            hasRequired entry = true
            /\ exists lines, field entry "credits" = VArr lines
                 /\ Forall (fun line => wellFormedLine line = true) lines)
         [ Manus.assign entryOne "credits"
             (VArr [VObj [("role", VStr "PRODUCER"); ("people", VStr "X")]]);
           Manus.assign entryThree "credits" (VArr []) ].
Proof.
  apply (validated_entries_are_well_formed
           (VArr [entryOne; entryNoTitle; entryThree])).
  vm_compute. reflexivity.
Defined.

(** X3.  Validation is idempotent: validating what a validation returned
    gives it back unchanged. *)
Theorem validateAndCleanCredits_idempotent (payload : Val) (out : list Val) :
  validateAndCleanCredits payload = Ok out ->
  validateAndCleanCredits (VArr out) = Ok out.
Proof.
  intros (items & -> & _ & ->)%validateAndCleanCredits_ok.
  rewrite validateAndCleanCredits_exact.
  - f_equal. induction items as [|item rest IH]; [reflexivity|].
    cbn [List.filter]. destruct (hasRequired item) eqn:Hreq; [|exact IH].
    cbn [map List.filter]. rewrite hasRequired_cleanedEntry, Hreq.
    cbn [map]. now rewrite (cleanedEntry_idempotent _ Hreq), IH.
  - apply Forall_forall. intros entry Hin%list_elem_of_In.
    apply in_map_iff in Hin as (item & <- & Hitem).
    apply filter_In in Hitem as [_ Hreq]. now apply cleanable_cleanedEntry.
Qed.

(** Validating the cleaned sample payload a second time changes nothing. *)
Lemma validateAndCleanCredits_idempotent_witness :
  validateAndCleanCredits
    (VArr [ Manus.assign entryOne "credits"
              (VArr [VObj [("role", VStr "PRODUCER"); ("people", VStr "X")]]);
            Manus.assign entryThree "credits" (VArr []) ])
  = Ok [ Manus.assign entryOne "credits"
           (VArr [VObj [("role", VStr "PRODUCER"); ("people", VStr "X")]]);
         Manus.assign entryThree "credits" (VArr []) ].
Proof.
  apply (validateAndCleanCredits_idempotent
           (VArr [entryOne; entryNoTitle; entryThree])).
  vm_compute. reflexivity.
Defined.

End CleanedInvariant.

(** ** The end of a wait *)

Section WaitEnds.

Lemma inspectReply_open (reply : PollReply) :
  stillOpen reply = true -> inspectReply reply = Ok None.
Proof.
  destruct reply as [e|task]; [discriminate|]. unfold stillOpen, inspectReply.
  intros [[[Hn Hp]%andb_true_iff Hc]%andb_true_iff Hf]%andb_true_iff.
  apply negb_true_iff in Hn, Hc, Hf.
  rewrite !(getProp_field _ _ Hn). run_bind.
  unfold printable in Hp. destruct (toStringVal (field task "status"));
    [|discriminate].
  run_bind. now rewrite Hc, Hf.
Qed.

Lemma inspectReply_not_open (reply : PollReply) :
  stillOpen reply = false -> inspectReply reply <> Ok None.
Proof.
  destruct reply as [e|task]; [discriminate|]. unfold stillOpen, inspectReply.
  destruct (nullish task) eqn:Hn.
  - intros _. destruct task; try discriminate; cbn; discriminate.
  - rewrite !(getProp_field _ _ Hn). run_bind. unfold printable.
    destruct (toStringVal (field task "status")); [|discriminate].
    run_bind. cbn [negb andb].
    destruct (strictEqStr (field task "status") "completed"); [discriminate|].
    destruct (strictEqStr (field task "status") "failed"); [|discriminate].
    intros _. run_bind.
    destruct (toStringVal (field task "error")); discriminate.
Qed.

(** X4.  The wait goes on after a reply exactly when the reply carries a
    task whose status prints and is neither "completed" nor "failed"; a
    status outside the documented ones, or none at all, counts as still
    running. *)
Theorem wait_goes_on_iff_status_open (reply : PollReply) :
  inspectReply reply = Ok None <-> stillOpen reply = true.
Proof.
  split.
  - intros H. destruct (stillOpen reply) eqn:E; [reflexivity|].
    now destruct (inspectReply_not_open reply E).
  - apply inspectReply_open.
Qed.

(** A task reported as "queued" keeps the wait going. *)
Lemma wait_goes_on_witness : inspectReply queuedTask = Ok None.
Proof. apply wait_goes_on_iff_status_open. reflexivity. Defined.

(** From any state: [k] open replies, then one that is not. *)
Lemma pollLoop_ends (replies : nat -> PollReply) (k : nat) :
  forall (budget : nat) (st : Wait),
  (k < budget)%nat ->
  (forall j : nat, (j < k)%nat -> stillOpen (replies (polls st + j)%nat) = true) ->
  stillOpen (replies (polls st + k)%nat) = false ->
  pollLoop replies budget st
  = (match inspectReply (replies (polls st + k)%nat) with
     | Ok (Some result) => Ok result
     | Ok None => Throw (Error timeoutMessage)
     | Throw e => Throw e
     end,
     mkWait (polls st + k + 1) (attempts st + k)
            (waitedMs st + 30000 * Z.of_nat k)).
Proof.
  induction k as [|k IH]; intros budget st Hk Hbefore Hend;
    (destruct budget as [|budget]; [lia|]); cbn [pollLoop].
  - rewrite Nat.add_0_r in Hend |- *.
    pose proof (inspectReply_not_open _ Hend) as Hne.
    destruct (inspectReply (replies (polls st))) as [[result|]|e];
      [| now destruct Hne |]; f_equal; apply wait_eq; lia.
  - rewrite (inspectReply_open (replies (polls st))).
    2:{ specialize (Hbefore 0%nat). rewrite Nat.add_0_r in Hbefore.
        apply Hbefore. lia. }
    rewrite IH; cbn [polls attempts waitedMs].
    + replace (S (polls st) + k)%nat with (polls st + S k)%nat by lia.
      f_equal. apply wait_eq; lia.
    + lia.
    + intros j Hj. replace (S (polls st) + j)%nat with (polls st + S j)%nat by lia.
      apply Hbefore. lia.
    + now replace (S (polls st) + k)%nat with (polls st + S k)%nat by lia.
Qed.

(** X5.  A task reported as failed ends the wait at once: after [k] open
    replies and a failed one, [waitForTaskCompletion] has sent exactly
    [k + 1] requests and throws the error whose message carries the
    remote error text. *)
Theorem failed_task_ends_wait (api : TaskApi) (taskId remote : string) (k : nat) :
  (k < maxAttempts)%nat ->
  (forall j : nat, (j < k)%nat -> stillOpen (api taskId j) = true) ->
  replyStatus (api taskId k) = Some "failed" ->
  toStringVal (replyError (api taskId k)) = Ok remote ->
  waitForTaskCompletion api taskId
  = (Throw (Error ("Task failed: " +:+ remote)),
     mkWait (k + 1) k (30000 * Z.of_nat k)).
Proof.
  intros Hk Hbefore Hfailed Hremote. unfold waitForTaskCompletion.
  rewrite (pollLoop_ends (api taskId) k);
    cbn [polls attempts waitedMs Nat.add]; auto.
  - rewrite (inspectReply_failed _ remote Hfailed Hremote).
    f_equal; try (apply wait_eq; lia).
  - destruct (stillOpen (api taskId k)) eqn:E; [|reflexivity].
    apply inspectReply_open in E.
    rewrite (inspectReply_failed _ remote Hfailed Hremote) in E. discriminate.
Qed.

(** Pending, then failed: two requests, one wait of 30 seconds. *)
Lemma failed_task_ends_wait_witness :
  waitForTaskCompletion (fun _ => scripted [pendingTask; failedTask "no credits"])
                        "task-1"
  = (Throw (Error "Task failed: no credits"), mkWait 2 1 30000).
Proof.
  apply (failed_task_ends_wait
           (fun _ => scripted [pendingTask; failedTask "no credits"])
           "task-1" "no credits" 1).
  - unfold maxAttempts. lia.
  - intros [|j] Hj; [reflexivity | lia].
  - reflexivity.
  - reflexivity.
Defined.

(** X6.  A status request that is rejected is not retried: after [k] open
    replies and a rejected request, [waitForTaskCompletion] has sent
    exactly [k + 1] requests and throws the error of the rejection
    unchanged. *)
Theorem rejected_poll_ends_wait (api : TaskApi) (taskId : string)
    (e : JsError) (k : nat) :
  (k < maxAttempts)%nat ->
  (forall j : nat, (j < k)%nat -> stillOpen (api taskId j) = true) ->
  api taskId k = PollRejected e ->
  waitForTaskCompletion api taskId
  = (Throw e, mkWait (k + 1) k (30000 * Z.of_nat k)).
Proof.
  intros Hk Hbefore Hrejected. unfold waitForTaskCompletion.
  rewrite (pollLoop_ends (api taskId) k);
    cbn [polls attempts waitedMs Nat.add]; auto; rewrite Hrejected;
    [|reflexivity].
  cbn [inspectReply]. f_equal; try (apply wait_eq; lia).
Qed.

(** Pending twice, then nothing more scripted: the third request is
    rejected and its error comes out. *)
Lemma rejected_poll_ends_wait_witness :
  waitForTaskCompletion (fun _ => scripted [pendingTask; pendingTask]) "task-1"
  = (Throw (Error "no reply scripted"), mkWait 3 2 60000).
Proof.
  apply (rejected_poll_ends_wait (fun _ => scripted [pendingTask; pendingTask])
           "task-1" (Error "no reply scripted") 2).
  - unfold maxAttempts. lia.
  - intros [|[|j]] Hj; [reflexivity..| lia].
  - reflexivity.
Defined.

Lemma pollLoop_bounds (replies : nat -> PollReply) (budget : nat) :
  forall st : Wait,
  let st' := (pollLoop replies budget st).2 in
  (polls st <= polls st')%nat
  /\ (polls st' <= polls st + budget)%nat
  /\ (polls st' - polls st <= attempts st' - attempts st + 1)%nat
  /\ (attempts st' - attempts st <= polls st' - polls st)%nat
  /\ (attempts st <= attempts st')%nat
  /\ (attempts st' <= attempts st + budget)%nat
  /\ waitedMs st' = waitedMs st + 30000 * Z.of_nat (attempts st' - attempts st).
Proof.
  induction budget as [|budget IH]; intros st; cbn [pollLoop].
  - cbn. repeat split; lia.
  - destruct (inspectReply (replies (polls st))) as [[result|]|e];
      cbn [snd polls attempts waitedMs]; try (repeat split; lia).
    specialize (IH (mkWait (S (polls st)) (S (attempts st)) (waitedMs st + 30000))).
    cbv zeta in IH. cbn [polls attempts waitedMs] in IH.
    destruct IH as (H1 & H2 & H3 & H4 & H5 & H6 & H7).
    repeat split; lia.
Qed.

(** X7.  Whatever the remote agent answers, [waitForTaskCompletion]
    sends at most 60 status requests, sleeps 30 seconds once per attempt
    and never more than 30 minutes in all. *)
Theorem wait_is_bounded (api : TaskApi) (taskId : string) :
  let st := (waitForTaskCompletion api taskId).2 in
  (polls st <= 60)%nat
  /\ (attempts st <= polls st)%nat
  /\ (polls st <= attempts st + 1)%nat
  /\ waitedMs st = 30000 * Z.of_nat (attempts st)
  /\ waitedMs st <= 1800000.
Proof.
  cbv zeta. unfold waitForTaskCompletion.
  pose proof (pollLoop_bounds (api taskId) maxAttempts (mkWait 0 0 0)) as H.
  cbv zeta in H. cbn [polls attempts waitedMs] in H. unfold maxAttempts in *.
  destruct H as (H1 & H2 & H3 & H4 & H5 & H6 & H7).
  repeat split; lia.
Qed.

End WaitEnds.

(** ** One search *)

Section OneSearch.

Lemma bestLoop_member `{folding : CaseFolding}
    (videos : list Video) (official : list string)
    (artist title : Val) (remaining : list Video) :
  forall (bestVideo : option Video) (bestScore : Z) (w : Video),
  bestLoop videos official artist title remaining bestVideo bestScore = Ok (Some w) ->
  bestVideo = Some w \/ w ∈ remaining.
Proof.
  induction remaining as [|v rest IH]; intros bestVideo bestScore w; cbn [bestLoop].
  - intros [= ->]. now left.
  - destruct (videoScore videos official artist title v) as [score|e];
      [|discriminate]. run_bind.
    destruct (score >? bestScore); intros H; apply IH in H as [H|H].
    + injection H as ->. right. apply elem_of_cons. now left.
    + right. apply elem_of_cons. now right.
    + now left.
    + right. apply elem_of_cons. now right.
Qed.

Lemma findBestVideo_member `{folding : CaseFolding}
    (videos : list Video) (artist title : Val) (w : Video) :
  findBestVideo videos artist title = Ok (Some w) -> w ∈ videos.
Proof.
  unfold findBestVideo. destruct (callToLowerCase artist); [|discriminate].
  run_bind. intros [H|H]%bestLoop_member; [discriminate | exact H].
Qed.

(** X8.  Once its query is built, [searchYouTubeVideo] sends exactly one
    request and does not throw: it returns [null] or the match object of
    one of the videos of the reply, with the watch URL of that video.
    When the query cannot be built the error escapes and no request is
    sent. *)
Theorem searchYouTubeVideo_result `{folding : CaseFolding}
    (api : SearchApi) (calls : nat)
    (artist title : Val) :
  (forall query, queryOf artist title = Ok query ->
     exists found,
       searchYouTubeVideo api calls artist title = (Ok found, S calls)
       /\ (found = VNull
           \/ exists videos v,
                api calls query = SearchItems videos /\ v ∈ videos
                /\ found = videoMatch v
                /\ field found "url"
                   = VStr ("https://www.youtube.com/watch?v=" +:+ id_videoId v)))
  /\ (forall e, queryOf artist title = Throw e ->
        searchYouTubeVideo api calls artist title = (Throw e, calls)).
Proof.
  split.
  - intros query Hq. unfold searchYouTubeVideo. rewrite Hq.
    destruct (api calls query) as [e|videos] eqn:Hreply; cbn [searchAttempt].
    + exists VNull. split; [reflexivity | now left].
    + destruct (length videos =? 0)%nat.
      * exists VNull. split; [reflexivity | now left].
      * destruct (findBestVideo videos artist title) as [[w|]|e] eqn:Hbest;
          run_bind.
        -- exists (videoMatch w). split; [reflexivity|]. right.
           exists videos, w. repeat split.
           eapply findBestVideo_member, Hbest.
        -- exists VNull. split; [reflexivity | now left].
        -- exists VNull. split; [reflexivity | now left].
  - intros e Hq. unfold searchYouTubeVideo. now rewrite Hq.
Qed.

(** The second request of the sample provider finds the official video. *)
Lemma searchYouTubeVideo_result_witness :
  searchYouTubeVideo flakyApi 1 (VStr "E") (VStr "F")
  = (Ok (videoMatch officialVideo), 2%nat).
Proof.
  destruct (searchYouTubeVideo_result flakyApi 1 (VStr "E") (VStr "F"))
    as [Hsent _].
  destruct (Hsent "E F" eq_refl) as (found & Hrun & _).
  rewrite Hrun. vm_compute in Hrun. injection Hrun as <-. reflexivity.
Defined.

(** X9.  An artist that is not a string never gets a match: the
    [TypeError] of [artist.toLowerCase()] is caught with every other
    failure of the search, and [null] is returned whatever the provider
    answered. *)
Theorem non_string_artist_never_matches `{folding : CaseFolding}
    (api : SearchApi) (calls : nat)
    (artist title : Val) (query : string) :
  isString artist = false ->
  queryOf artist title = Ok query ->
  searchYouTubeVideo api calls artist title = (Ok VNull, S calls).
Proof.
  intros Hartist Hq. unfold searchYouTubeVideo. rewrite Hq.
  destruct (api calls query) as [e|videos]; cbn [searchAttempt]; [reflexivity|].
  destruct (length videos =? 0)%nat; [reflexivity|].
  unfold findBestVideo.
  destruct artist; try discriminate; reflexivity.
Qed.

(** The band 311 written as a number: the official video is there and is
    not matched. *)
Lemma non_string_artist_witness :
  searchYouTubeVideo flakyApi 1 (VNum 311) (VStr "F") = (Ok VNull, 2%nat).
Proof.
  apply (non_string_artist_never_matches flakyApi 1 (VNum 311) (VStr "F") "311 F");
    reflexivity.
Defined.

Lemma bestLoop_ext `{folding : CaseFolding}
    (videos : list Video) (official : list string)
    (artist title artist' title' : Val) (remaining : list Video) :
  (forall v, videoScore videos official artist title v
             = videoScore videos official artist' title' v) ->
  forall (bestVideo : option Video) (bestScore : Z),
  bestLoop videos official artist title remaining bestVideo bestScore
  = bestLoop videos official artist' title' remaining bestVideo bestScore.
Proof.
  intros Hscore. induction remaining as [|v rest IH]; intros bestVideo bestScore;
    cbn [bestLoop]; [reflexivity|].
  rewrite Hscore. destruct (videoScore videos official artist' title' v);
    [|reflexivity].
  run_bind. destruct (a >? bestScore); apply IH.
Qed.

(** X10.  The selection is case-insensitive in the artist and the track
    title: two artists, and two titles, that agree once lowercased give
    the same result on every candidate list. *)
Theorem findBestVideo_ignores_case `{folding : CaseFolding}
    (videos : list Video)
    (artist artist' title title' : string) :
  toLowerCase artist = toLowerCase artist' ->
  toLowerCase title = toLowerCase title' ->
  findBestVideo videos (VStr artist) (VStr title)
  = findBestVideo videos (VStr artist') (VStr title').
Proof.
  intros Ha Ht. unfold findBestVideo. cbn [callToLowerCase]. run_bind.
  rewrite Ha. apply bestLoop_ext. intros v.
  unfold videoScore, titleAccurate. cbn [callToLowerCase]. run_bind.
  now rewrite Ha, Ht.
Qed.

(** "ARTIST" and "artist", "SONG" and "Song". *)
Lemma findBestVideo_ignores_case_witness :
  findBestVideo [tenFirst; tenSecond] (VStr "ARTIST") (VStr "SONG")
  = findBestVideo [tenFirst; tenSecond] (VStr "artist") (VStr "Song").
Proof.
  apply (findBestVideo_ignores_case [tenFirst; tenSecond]); reflexivity.
Defined.

End OneSearch.

(** ** The pace and the end of a collection *)

Section Collection.

Variable api : SearchApi.

Lemma processItem_entry_exact `{folding : CaseFolding}
    (total i : nat) (item : Val) (st : Run) :
  creditedEntry item = true ->
  processItem api total i item st
  = (Ok (mkRun (results st ++ [withYoutube item (youtubeFor api (apiCalls st) item)])
               (S (apiCalls st))
               (if Z.of_nat i <? Z.of_nat total - 1 then sleptMs st + delay
                else sleptMs st)),
     S (apiCalls st)).
Proof.
  intros H. pose proof (creditedEntry_printable item H) as (Hn & _).
  unfold processItem. rewrite !(getProp_field _ _ Hn).
  now rewrite (searchYouTubeVideo_entry api item _ H).
Qed.

Lemma collectLoop_pace `{folding : CaseFolding}
    (total : nat) (remaining : list Val) :
  Forall (fun item => creditedEntry item = true) remaining ->
  forall (i : nat) (st : Run),
  (i + length remaining)%nat = total ->
  exists run, collectLoop api total remaining i st = Ok run
    /\ apiCalls run = (apiCalls st + length remaining)%nat
    /\ sleptMs run = sleptMs st + delay * Z.of_nat (length remaining - 1).
Proof.
  induction 1 as [|item rest Hitem _ IH]; intros i st Hi; cbn [collectLoop].
  - exists st. cbn. repeat split; lia.
  - destruct (progressLine_total item total Hitem) as [line ->]. run_bind.
    rewrite (processItem_entry_exact total i item st Hitem).
    cbn [length] in Hi.
    edestruct (IH (S i)) as (run & -> & Hcalls & Hslept); [lia|].
    exists run. split; [reflexivity|].
    cbn [apiCalls sleptMs length] in *. split; [lia|].
    rewrite Hslept. unfold delay.
    destruct rest as [|next rest]; cbn [length] in *.
    + destruct (Z.ltb_spec (Z.of_nat i) (Z.of_nat total - 1)); lia.
    + destruct (Z.ltb_spec (Z.of_nat i) (Z.of_nat total - 1)); lia.
Qed.

Lemma collectLoop_aborts `{folding : CaseFolding}
    (total : nat) (pre : list Val) (item : Val)
    (post : list Val) (e : JsError) :
  Forall (fun entry => creditedEntry entry = true) pre ->
  progressLine item total = Throw e ->
  forall (i : nat) (st : Run),
  collectLoop api total (pre ++ item :: post) i st = Throw e.
Proof.
  intros Hpre Hitem. induction Hpre as [|entry pre Hentry _ IH]; intros i st;
    cbn [app collectLoop].
  - now rewrite Hitem.
  - destruct (progressLine_total entry total Hentry) as [line ->]. run_bind.
    rewrite (processItem_entry_exact total i entry st Hentry). apply IH.
Qed.

End Collection.

Section CollectionFacts.

(** X11.  Over credited entries the collection sends exactly one search
    request per entry and sleeps one second between two entries, never
    after the last one: [n] entries take [n] requests and [n - 1]
    seconds of waiting. *)
Theorem collection_is_paced `{folding : CaseFolding}
    (api : SearchApi) (creditsData : list Val) :
  Forall (fun item => creditedEntry item = true) creditsData ->
  exists run, collectAllYouTubeLinks api creditsData = Ok run
    /\ apiCalls run = length creditsData
    /\ sleptMs run = 1000 * Z.of_nat (length creditsData - 1).
Proof.
  intros Hentries. unfold collectAllYouTubeLinks.
  destruct (collectLoop_pace api (length creditsData) creditsData Hentries
              0 (mkRun [] 0 0) eq_refl) as (run & Hrun & Hcalls & Hslept).
  exists run. split; [exact Hrun|]. cbn [apiCalls sleptMs] in *.
  unfold delay in Hslept. split; lia.
Qed.

(** Two entries: two requests, one second of waiting. *)
Lemma collection_is_paced_witness :
  exists run, collectAllYouTubeLinks flakyApi [entryOne; entryThree] = Ok run
    /\ apiCalls run = 2%nat /\ sleptMs run = 1000.
Proof.
  destruct (collection_is_paced flakyApi [entryOne; entryThree])
    as (run & Hrun & Hcalls & Hslept).
  - repeat constructor.
  - exists run. split; [exact Hrun|]. split; [exact Hcalls | exact Hslept].
Defined.

(** X12.  An item that is [null] or [undefined] makes the collection throw
    at that item's progress line, outside the [try]: the results of the
    entries before it are lost with it. *)
Theorem null_entry_aborts_collection `{folding : CaseFolding} (api : SearchApi)
    (pre : list Val) (item : Val) (post : list Val) :
  Forall (fun entry => creditedEntry entry = true) pre ->
  nullish item = true ->
  exists message,
    collectAllYouTubeLinks api (pre ++ item :: post) = Throw (TypeError message).
Proof.
  intros Hpre Hnull. unfold collectAllYouTubeLinks.
  destruct item; try discriminate; eexists;
    apply (collectLoop_aborts api _ pre _ post _ Hpre); reflexivity.
Qed.

(** A [null] after one good entry. *)
Lemma null_entry_aborts_witness :
  collectAllYouTubeLinks flakyApi ([entryThree] ++ VNull :: [entryOne])
  = Throw (TypeError "Cannot read properties of null (reading 'rank')").
Proof.
  destruct (null_entry_aborts_collection flakyApi [entryThree] VNull [entryOne])
    as [message Hrun].
  - repeat constructor.
  - reflexivity.
  - rewrite Hrun. vm_compute in Hrun. congruence.
Defined.

End CollectionFacts.

(** ** The snapshots of the three stages *)

Section Stores.

Lemma append_cancel_l (prefix a b : string) :
  prefix +:+ a = prefix +:+ b -> a = b.
Proof.
  induction prefix as [|c prefix IH]; simpl; [auto|].
  intros [= H]. auto.
Qed.

Lemma length_append (a b : string) :
  String.length (a +:+ b) = (String.length a + String.length b)%nat.
Proof. induction a as [|c a IH]; simpl; [reflexivity | now rewrite IH]. Qed.

Lemma append_cancel_r (a b suffix : string) :
  a +:+ suffix = b +:+ suffix -> a = b.
Proof.
  revert b. induction a as [|c a IH]; intros [|d b] H.
  - reflexivity.
  - apply (f_equal String.length) in H.
    rewrite !length_append in H. simpl in H. lia.
  - apply (f_equal String.length) in H.
    rewrite !length_append in H. simpl in H. lia.
  - injection H as -> H. f_equal. now apply IH.
Qed.

Lemma pathJoin_inj (dir a b : string) : pathJoin dir a = pathJoin dir b -> a = b.
Proof.
  unfold pathJoin. intros H%append_cancel_l. now apply (append_cancel_l "/").
Qed.

Lemma readFile_other (path other : string) (doc : Val) (files : Files) :
  path <> other -> readFile other (writeFile path doc files) = readFile other files.
Proof.
  intros Hne. unfold readFile, writeFile, Files in *.
  now rewrite lookup_insert_ne.
Qed.

(** The common shape of the three loaders; [echo] is the conversion of
    the number of entries to text for the log, where it is modelled. *)
Lemma loader_shape (path message : string) (files : Files)
    (echo : Val -> Exc string) :
  (forall n, exists text, echo (VNum n) = Ok text) ->
  let load :=
    match (doc ← readFile path files;
           data ← getProp doc "data";
           entries ← readLength data;
           _ ← echo entries;
           Ok data) with
    | Ok data => Ok data
    | Throw _ => Throw (Error message)
    end in
  (forall items, holdsArray files path items -> load = Ok (VArr items))
  /\ (holdsNoData files path -> load = Throw (Error message))
  /\ (forall e, load = Throw e -> e = Error message).
Proof.
  intros Hecho. cbv zeta. unfold holdsArray, holdsNoData, readFile.
  unfold Files in *. split; [|split].
  - intros items (doc & -> & Hdata). run_bind.
    destruct doc as [| | | | | |props]; try discriminate.
    cbn [getProp field] in *. rewrite Hdata. run_bind. cbn [readLength]. run_bind.
    destruct (Hecho (Z.of_nat (length items))) as [text ->]. reflexivity.
  - intros Hnone. destruct (files !! path) as [doc|]; [|reflexivity].
    specialize (Hnone doc eq_refl). run_bind.
    destruct (nullish doc) eqn:Hn.
    + now destruct doc.
    + rewrite (getProp_field _ _ Hn). run_bind.
      now destruct (field doc "data").
  - intros e. destruct (_ ≫= _); [discriminate | now intros [= <-]].
Qed.

(** X13.  Each loader of a latest snapshot returns the [data] array of
    its file when the file holds one, fails with the one error that names
    the stage to run first when the file is absent or holds no [data], and
    never fails with any other error. *)
Theorem loaders_fail_with_one_error (dataDir : string) (files : Files) :
  ((forall items,
      holdsArray files (pathJoin dataDir "latest-chart.json") items ->
      loadLatestChartData dataDir files = Ok (VArr items))
   /\ (holdsNoData files (pathJoin dataDir "latest-chart.json") ->
       loadLatestChartData dataDir files
       = Throw (Error "Chart data not found. Run scrape-kworb.js first."))
   /\ (forall e, loadLatestChartData dataDir files = Throw e ->
         e = Error "Chart data not found. Run scrape-kworb.js first."))
  /\ ((forall items,
         holdsArray files (pathJoin dataDir "latest-credits.json") items ->
         loadLatestCreditsData dataDir files = Ok (VArr items))
      /\ (holdsNoData files (pathJoin dataDir "latest-credits.json") ->
          loadLatestCreditsData dataDir files
          = Throw (Error "Credits data not found. Run trigger-manus-agent.js first."))
      /\ (forall e, loadLatestCreditsData dataDir files = Throw e ->
            e = Error "Credits data not found. Run trigger-manus-agent.js first."))
  /\ ((forall items,
         holdsArray files (pathJoin dataDir "latest-youtube.json") items ->
         loadLatestYouTubeData dataDir files = Ok (VArr items))
      /\ (holdsNoData files (pathJoin dataDir "latest-youtube.json") ->
          loadLatestYouTubeData dataDir files
          = Throw (Error "YouTube data not found. Run get-youtube-links.js first."))
      /\ (forall e, loadLatestYouTubeData dataDir files = Throw e ->
            e = Error "YouTube data not found. Run get-youtube-links.js first.")).
Proof.
  split; [|split].
  - apply (loader_shape _ _ files toStringVal). intros n. cbn. eauto.
  - apply (loader_shape _ _ files (fun _ => Ok "")). eauto.
  - apply (loader_shape _ _ files (fun _ => Ok "")). eauto.
Qed.

(** In an empty data directory the credits loader tells which script to
    run. *)
Lemma loaders_fail_witness :
  loadLatestCreditsData "./data" ∅
  = Throw (Error "Credits data not found. Run trigger-manus-agent.js first.").
Proof.
  destruct (loaders_fail_with_one_error "./data" ∅) as (_ & (_ & Hnone & _) & _).
  apply Hnone. intros doc Hdoc. discriminate.
Defined.

End Stores.

Section StoreFacts.

Lemma dated_inj (dataDir kind day day' : string) :
  pathJoin dataDir (kind +:+ day +:+ ".json")
  = pathJoin dataDir (kind +:+ day' +:+ ".json") -> day = day'.
Proof.
  intros H%pathJoin_inj%append_cancel_l. now apply append_cancel_r in H.
Qed.

(** X14.  Each stage writes only the files of its own kind: saving the
    chart, the credits or the video snapshot leaves what the loaders of
    the two other kinds return unchanged. *)
Theorem stages_write_their_own_kind (dataDir today now : string) (range : Z)
    (payload : list Val) (files : Files) :
  (loadLatestCreditsData dataDir
     (saveChartData dataDir range today now payload files).2
   = loadLatestCreditsData dataDir files
   /\ loadLatestYouTubeData dataDir
        (saveChartData dataDir range today now payload files).2
      = loadLatestYouTubeData dataDir files)
  /\ (loadLatestChartData dataDir
        (saveCreditsData dataDir today now payload files).2
      = loadLatestChartData dataDir files
      /\ loadLatestYouTubeData dataDir
           (saveCreditsData dataDir today now payload files).2
         = loadLatestYouTubeData dataDir files)
  /\ (loadLatestChartData dataDir
        (saveYouTubeData dataDir today now payload files).2
      = loadLatestChartData dataDir files
      /\ loadLatestCreditsData dataDir
           (saveYouTubeData dataDir today now payload files).2
         = loadLatestCreditsData dataDir files).
Proof.
  unfold saveChartData, saveCreditsData, saveYouTubeData, loadLatestChartData,
    loadLatestCreditsData, loadLatestYouTubeData. cbn [snd].
  repeat apply conj;
    rewrite !readFile_other; try reflexivity;
    intros H%pathJoin_inj; discriminate.
Qed.

(** X15.  Runs on different dates keep their history: the dated file of
    the first run still holds the first payload after the second run,
    while the latest snapshot is the second payload. *)
Theorem other_day_keeps_history (dataDir today1 now1 today2 now2 : string)
    (first second : list Val) (files : Files) :
  beforeT today1 <> beforeT today2 ->
  let run1 := saveCreditsData dataDir today1 now1 first files in
  let run2 := saveCreditsData dataDir today2 now2 second run1.2 in
  run2.1 <> run1.1
  /\ readFile run1.1 run2.2 = readFile run1.1 run1.2
  /\ (fun doc => field doc "data") <$> run2.2 !! run1.1
     = Some (jsonRoundTrip (VArr first))
  /\ loadLatestCreditsData dataDir run2.2 = Ok (jsonRoundTrip (VArr second)).
Proof.
  intros Hday. cbv zeta. unfold saveCreditsData, loadLatestCreditsData.
  cbn [fst snd].
  assert (pathJoin dataDir ("credits-" +:+ beforeT today2 +:+ ".json")
          <> pathJoin dataDir ("credits-" +:+ beforeT today1 +:+ ".json")) as Hdated
    by (intros H%dated_inj; congruence).
  assert (pathJoin dataDir "latest-credits.json"
          <> pathJoin dataDir ("credits-" +:+ beforeT today1 +:+ ".json")) as Hlatest
    by (intros H%pathJoin_inj; discriminate).
  split; [exact Hdated|]. split; [|split].
  - now rewrite !readFile_other by assumption.
  - unfold writeFile, Files in *.
    rewrite !lookup_insert_ne by assumption.
    now rewrite lookup_insert_eq.
  - now rewrite readFile_written.
Qed.

(** A run on 6 May and a run on 13 May 2024: the file of 6 May still
    holds the first entry. *)
Lemma other_day_keeps_history_witness :
  (fun doc => field doc "data")
    <$> (saveCreditsData "./data" "2024-05-13T09:30:00.000Z"
           "2024-05-13T09:30:00.001Z" [entryThree]
           (saveCreditsData "./data" "2024-05-06T01:02:03.000Z"
              "2024-05-06T01:02:03.004Z" [entryOne] ∅).2).2
        !! "./data/credits-2024-05-06.json"
  = Some (VArr [entryOne]).
Proof.
  destruct (other_day_keeps_history "./data"
              "2024-05-06T01:02:03.000Z" "2024-05-06T01:02:03.004Z"
              "2024-05-13T09:30:00.000Z" "2024-05-13T09:30:00.001Z"
              [entryOne] [entryThree] ∅) as (_ & _ & Hkept & _).
  - vm_compute. discriminate.
  - exact Hkept.
Defined.



End StoreFacts.

(** ** The request for the credits *)

Section Request.

Lemma chartLine_entry (item : Val) :
  chartEntry item = true -> exists line, chartLine item = Ok line.
Proof.
  unfold chartEntry, printable.
  intros [[[Hn Hr]%andb_true_iff Ha]%andb_true_iff Ht]%andb_true_iff.
  apply negb_true_iff in Hn. unfold chartLine.
  rewrite !(getProp_field _ _ Hn). run_bind.
  destruct (toStringVal (field item "rank")); [|discriminate]. run_bind.
  destruct (toStringVal (field item "artist")); [|discriminate]. run_bind.
  destruct (toStringVal (field item "title")); [|discriminate]. run_bind.
  eauto.
Qed.

Lemma chartLine_not_entry (item : Val) :
  chartEntry item = false -> exists e, chartLine item = Throw e.
Proof.
  unfold chartEntry, printable, chartLine.
  destruct (nullish item) eqn:Hn.
  - intros _. destruct item; try discriminate; cbn; eauto.
  - rewrite !(getProp_field _ _ Hn). run_bind. cbn [negb andb].
    destruct (toStringVal (field item "rank")); [|cbn; eauto]. run_bind.
    destruct (toStringVal (field item "artist")); [|cbn; eauto]. run_bind.
    destruct (toStringVal (field item "title")); [discriminate | cbn; eauto].
Qed.

Lemma mapM_chartLine_entries (items : list Val) :
  Forall (fun item => chartEntry item = true) items ->
  exists lines, mapM chartLine items = Ok lines
    /\ Forall2 (fun item line => chartLine item = Ok line) items lines.
Proof.
  induction 1 as [|item rest Hitem _ (lines & Hlines & Hrel)]; simpl.
  - exists []. split; [reflexivity | constructor].
  - destruct (chartLine_entry item Hitem) as [line Hline].
    rewrite Hline, Hlines. run_bind. eexists. split; [reflexivity|].
    now constructor.
Qed.

Lemma mapM_chartLine_ok (items : list Val) (lines : list string) :
  mapM chartLine items = Ok lines ->
  Forall (fun item => chartEntry item = true) items.
Proof.
  revert lines. induction items as [|item rest IH]; intros lines;
    [constructor|]. simpl.
  destruct (chartEntry item) eqn:Hc.
  - destruct (chartLine item); [|discriminate]. run_bind.
    destruct (mapM chartLine rest) eqn:Hrest; [|discriminate].
    intros _. constructor; [exact Hc | eapply IH; reflexivity].
  - destruct (chartLine_not_entry item Hc) as [e ->]. discriminate.
Qed.

Lemma promptFor_ok (chartData : Val) (prompt : string) :
  promptFor chartData = Ok prompt ->
  exists first rest, chartData = VArr (first :: rest)
    /\ Forall (fun item => chartEntry item = true) (first :: rest).
Proof.
  unfold promptFor.
  destruct (readLength chartData) as [count|e]; [|discriminate]. run_bind.
  destruct (toStringVal count) as [countText|e]; [|discriminate]. run_bind.
  destruct chartData as [| | | | |items|]; try discriminate.
  destruct (mapM chartLine items) as [lines|e] eqn:Hlines; [|discriminate].
  destruct items as [|first rest]; [discriminate|].
  intros _. exists first, rest. split; [reflexivity|].
  eapply mapM_chartLine_ok, Hlines.
Qed.

Lemma promptFor_entries (first : Val) (rest : list Val) :
  Forall (fun item => chartEntry item = true) (first :: rest) ->
  exists lines rankText artistText titleText,
    mapM chartLine (first :: rest) = Ok lines
    /\ promptFor (VArr (first :: rest))
       = Ok (promptIntro +:+ pretty (Z.of_nat (length (first :: rest)))
               +:+ promptList +:+ joinWith nl lines
               +:+ promptFormat +:+ rankText +:+ promptArtist +:+ artistText
               +:+ promptTitle +:+ titleText +:+ promptRest).
Proof.
  intros Hall. destruct (mapM_chartLine_entries _ Hall) as (lines & Hlines & _).
  pose proof (Forall_inv Hall) as Hfirst.
  unfold chartEntry, printable in Hfirst.
  apply andb_true_iff in Hfirst as [[[Hn Hr]%andb_true_iff Ha]%andb_true_iff Ht].
  apply negb_true_iff in Hn.
  unfold promptFor. cbn [readLength toStringVal]. run_bind.
  rewrite Hlines. run_bind. cbn [firstOf].
  rewrite !(getProp_field _ _ Hn). run_bind.
  destruct (toStringVal (field first "rank")) as [r|]; [|discriminate]. run_bind.
  destruct (toStringVal (field first "artist")) as [a|]; [|discriminate]. run_bind.
  destruct (toStringVal (field first "title")) as [t|]; [|discriminate]. run_bind.
  exists lines, r, a, t. split; reflexivity.
Qed.

(** X17.  A task request is sent exactly when the chart is a non-empty
    array whose entries are not [null] and have a printable rank, artist
    and title; at most one request is sent.  On an empty chart the
    prompt cannot be built: reading the rank of its first entry throws
    before any request. *)
Theorem request_sent_iff_chart_printable (api : PostApi) (chartData : Val) :
  ((requestCreditsCollection api chartData).2 <> [] <->
   exists first rest, chartData = VArr (first :: rest)
     /\ Forall (fun item => chartEntry item = true) (first :: rest))
  /\ (length (requestCreditsCollection api chartData).2 <= 1)%nat
  /\ (chartData = VArr [] ->
      requestCreditsCollection api chartData
      = (Throw (TypeError "Cannot read properties of undefined (reading 'rank')"),
         [])).
Proof.
  unfold requestCreditsCollection. split; [|split].
  - split.
    + destruct (promptFor chartData) as [prompt|e] eqn:Hp; [|now intros []].
      intros _. eapply promptFor_ok, Hp.
    + intros (first & rest & -> & Hall).
      destruct (promptFor_entries first rest Hall) as (l & r & a & t & _ & ->).
      discriminate.
  - destruct (promptFor chartData); cbn; lia.
  - intros ->. reflexivity.
Qed.

(** A chart of one entry: one request. *)
Lemma request_sent_witness :
  length (requestCreditsCollection acceptingAgent (VArr [entryThree])).2 = 1%nat.
Proof.
  destruct (request_sent_iff_chart_printable acceptingAgent (VArr [entryThree]))
    as ([_ Hsent] & Hmost & _).
  assert ((requestCreditsCollection acceptingAgent (VArr [entryThree])).2 <> [])
    as Hne by (apply Hsent; exists entryThree, []; split;
               [reflexivity | repeat constructor]).
  destruct (requestCreditsCollection acceptingAgent (VArr [entryThree])).2
    as [|prompt [|more sent]]; [now destruct Hne | reflexivity | cbn in Hmost; lia].
Defined.

End Request.

Section PromptContent.

Lemma append_assoc (a b c : string) : (a +:+ b) +:+ c = a +:+ (b +:+ c).
Proof.
  induction a as [|x a IH]; [reflexivity|].
  change (String x ((a +:+ b) +:+ c) = String x (a +:+ (b +:+ c))).
  now rewrite IH.
Qed.

Lemma append_empty_r (a : string) : a +:+ "" = a.
Proof.
  induction a as [|x a IH]; [reflexivity|].
  change (String x (a +:+ "") = String x a). now rewrite IH.
Qed.

Lemma joinWith_member (sep line : string) (lines : list string) :
  line ∈ lines -> exists before after, joinWith sep lines = before +:+ line +:+ after.
Proof.
  induction lines as [|x rest IH]; [intros H; inversion H|].
  intros [->|Hin]%elem_of_cons.
  - destruct rest as [|y rest].
    + exists "", "". cbn [joinWith]. now rewrite append_empty_r.
    + exists "", (sep +:+ joinWith sep (y :: rest)). reflexivity.
  - destruct (IH Hin) as (before & after & Hjoin).
    destruct rest as [|y rest]; [inversion Hin|].
    exists (x +:+ sep +:+ before), after.
    change (joinWith sep (x :: y :: rest))
      with (x +:+ sep +:+ joinWith sep (y :: rest)).
    now rewrite Hjoin, !append_assoc.
Qed.

Lemma includes_within (a b middle line : string) :
  (exists before after, middle = before +:+ line +:+ after) ->
  includes (a +:+ middle +:+ b) line = true.
Proof.
  intros (before & after & ->).
  replace (a +:+ (before +:+ line +:+ after) +:+ b)
    with ((a +:+ before) +:+ line +:+ (after +:+ b))
    by now rewrite !append_assoc.
  apply includes_inserted.
Qed.

Lemma Forall2_chartLine_member (items : list Val) (lines : list string)
    (item : Val) (line : string) :
  Forall2 (fun item line => chartLine item = Ok line) items lines ->
  item ∈ items -> chartLine item = Ok line -> line ∈ lines.
Proof.
  induction 1 as [|x l items lines Hx _ IH]; [intros H; inversion H|].
  intros [->|Hin]%elem_of_cons Hline.
  - rewrite Hx in Hline. injection Hline as ->. apply elem_of_cons. now left.
  - apply elem_of_cons. right. now apply IH.
Qed.

(** X18.  For a chart of printable entries exactly one request is sent,
    and its prompt holds the line "rank위. artist - title" of every entry
    of the chart.  The request's outcome is the [task_id] of the reply;
    a rejection is thrown again unchanged. *)
Theorem prompt_lists_every_entry (api : PostApi) (first : Val) (rest : list Val) :
  Forall (fun item => chartEntry item = true) (first :: rest) ->
  exists prompt,
    (requestCreditsCollection api (VArr (first :: rest))).2 = [prompt]
    /\ (forall item line, item ∈ first :: rest -> chartLine item = Ok line ->
          includes prompt line = true)
    /\ (forall e, api prompt = PostRejected e ->
          (requestCreditsCollection api (VArr (first :: rest))).1 = Throw e)
    /\ (forall body id, api prompt = PostData body -> nullish body = false ->
          field body "task_id" = VStr id ->
          (requestCreditsCollection api (VArr (first :: rest))).1 = Ok (VStr id)).
Proof.
  intros Hall.
  destruct (mapM_chartLine_entries _ Hall) as (lines & Hlines & Hrel).
  destruct (promptFor_entries first rest Hall)
    as (lines' & r & a & t & Hlines' & Hprompt).
  rewrite Hlines in Hlines'. injection Hlines' as <-.
  unfold requestCreditsCollection. rewrite Hprompt. cbn [fst snd].
  eexists. split; [reflexivity|]. split; [|split].
  - intros item line Hin Hline.
    do 3 apply includes_skip.
    apply (includes_within ""), joinWith_member.
    eapply Forall2_chartLine_member; eauto.
  - intros e ->. reflexivity.
  - intros body id -> Hbody Hid.
    rewrite (getProp_field _ _ Hbody), Hid. reflexivity.
Qed.

(** The chart of the two sample entries: the line of the second entry is
    in the prompt, and the task id of the reply comes back. *)
Lemma prompt_lists_witness :
  exists prompt,
    requestCreditsCollection acceptingAgent (VArr [entryOne; entryThree])
    = (Ok (VStr "task-7"), [prompt])
    /\ includes prompt "3위. E - F" = true.
Proof.
  destruct (prompt_lists_every_entry acceptingAgent entryOne [entryThree])
    as (prompt & Hsent & Hlines & _ & Hid).
  - repeat constructor.
  - exists prompt. split.
    + specialize (Hid (VObj [("task_id", VStr "task-7")]) "task-7"
                      eq_refl eq_refl eq_refl).
      destruct (requestCreditsCollection acceptingAgent
                  (VArr [entryOne; entryThree])) as [outcome sent].
      cbn [fst snd] in Hsent, Hid. now rewrite Hsent, Hid.
    + apply (Hlines entryThree); [|reflexivity].
      apply elem_of_cons. right. apply elem_of_cons. now left.
Defined.

End PromptContent.

(** ** The credits stage as a whole *)

Section CreditsStage.

Lemma bind_Ok {A B} (m : Exc A) (k : A -> Exc B) (b : B) :
  m ≫= k = Ok b -> exists a, m = Ok a /\ k a = Ok b.
Proof. destruct m as [a|e]; [eauto | discriminate]. Qed.

Lemma mainSteps_ok (dataDir today now : string) (post : PostApi)
    (tasks : TaskApi) (files written : Files) (out : list Val) :
  mainSteps dataDir today now post tasks files = Ok (out, written) ->
  written = (saveCreditsData dataDir today now out files).2
  /\ exists creditsResult, validateAndCleanCredits creditsResult = Ok out.
Proof.
  unfold mainSteps. intros H.
  apply bind_Ok in H as (chartData & _ & H).
  apply bind_Ok in H as (taskId & _ & H).
  apply bind_Ok in H as (taskText & _ & H).
  apply bind_Ok in H as (creditsResult & _ & H).
  apply bind_Ok in H as (cleaned & Hclean & H).
  injection H as <- <-. split; [reflexivity | eauto].
Qed.

(** X19.  The credits stage writes its snapshot only as its last step: a
    run that does not return leaves the data directory exactly as it
    found it and ends with exit code 1 (or, when the API key is not set,
    with the rejection that says so); a run that returns has saved a
    validated payload, which the loader of the next stage reads back. *)
Theorem failed_credits_run_writes_nothing (apiKey : option string)
    (dataDir today now : string) (post : PostApi) (tasks : TaskApi)
    (files : Files) :
  let run := Manus.main apiKey dataDir today now post tasks files in
  (forall out, run.1 = Returned out ->
     run.2 = (saveCreditsData dataDir today now out files).2
     /\ loadLatestCreditsData dataDir run.2 = Ok (jsonRoundTrip (VArr out))
     /\ exists creditsResult, validateAndCleanCredits creditsResult = Ok out)
  /\ ((forall out, run.1 <> Returned out) ->
      run.2 = files
      /\ (run.1 = Exited 1
          \/ run.1 = Rejected (Error "MANUS_API_KEY environment variable is required"))).
Proof.
  cbv zeta. unfold Manus.main.
  destruct (negb (truthy (from_option VStr VUndefined apiKey))); cbn [fst snd].
  - split; [discriminate|]. intros _. split; [reflexivity | now right].
  - destruct (mainSteps dataDir today now post tasks files)
      as [[cleaned written]|e] eqn:Hsteps; cbn [fst snd].
    + split.
      * intros out [= <-].
        destruct (mainSteps_ok _ _ _ _ _ _ _ _ Hsteps) as [-> Hvalid].
        split; [reflexivity|]. split; [|exact Hvalid].
        unfold saveCreditsData, loadLatestCreditsData. cbn [snd].
        now rewrite readFile_written.
      * intros Hnever. now destruct (Hnever cleaned).
    + split; [discriminate|]. intros _. split; [reflexivity | now left].
Qed.

(** A run whose remote task fails: exit code 1, and the directory still
    holds only what the chart stage wrote. *)
Lemma failed_credits_run_witness :
  Manus.main (Some "key") "./data" "2024-05-06T01:00:00.000Z"
    "2024-05-06T01:00:00.003Z" acceptingAgent failingAgent chartWritten
  = (Exited 1, chartWritten).
Proof.
  destruct (failed_credits_run_writes_nothing (Some "key") "./data"
              "2024-05-06T01:00:00.000Z" "2024-05-06T01:00:00.003Z"
              acceptingAgent failingAgent chartWritten) as [_ Hfailed].
  cbv zeta in Hfailed.
  set (run := Manus.main _ _ _ _ _ _ _) in *.
  assert (run.1 = Exited 1) as Hexit by (vm_compute; reflexivity).
  destruct Hfailed as [Hfiles _].
  - intros out Hout. rewrite Hexit in Hout. discriminate.
  - rewrite (surjective_pairing run). now rewrite Hexit, Hfiles.
Defined.

(** A complete run: the validated entries are returned and are what the
    next stage loads. *)
Example complete_credits_run :
  let run := Manus.main (Some "key") "./data" "2024-05-06T01:00:00.000Z"
               "2024-05-06T01:00:00.003Z" acceptingAgent completingAgent
               chartWritten in
  run.1 = Returned [cleanedEntry entryOne; cleanedEntry entryThree]
  /\ loadLatestCreditsData "./data" run.2
     = Ok (VArr [cleanedEntry entryOne; cleanedEntry entryThree]).
Proof. vm_compute. split; reflexivity. Qed.

End CreditsStage.

(** ** The chart scraper *)

Section Splitting.

Lemma append_nil_l (s : string) : "" +:+ s = s.
Proof. reflexivity. Qed.

Lemma append_cons (c : ascii) (a s : string) :
  String c a +:+ s = String c (a +:+ s).
Proof. reflexivity. Qed.

Lemma stripPrefix_Some (p s rest : string) :
  stripPrefix p s = Some rest -> s = p +:+ rest.
Proof.
  revert s. induction p as [|a p IH]; intros s.
  - intros [= ->]. reflexivity.
  - destruct s as [|b s]; simpl; [discriminate|].
    destruct (Ascii.eqb a b) eqn:Hab; [|discriminate].
    apply Ascii.eqb_eq in Hab as ->. intros H%IH.
    now rewrite append_cons, H.
Qed.

Lemma stripPrefix_prefix (p s : string) :
  String.prefix p s = match stripPrefix p s with Some _ => true | None => false end.
Proof.
  revert s. induction p as [|a p IH]; intros s; [now destruct s|].
  destruct s as [|b s]; simpl; [reflexivity|].
  destruct (ascii_dec a b) as [->|Hne].
  - now rewrite Ascii.eqb_refl.
  - apply Ascii.eqb_neq in Hne. now rewrite Hne.
Qed.

Lemma breakOn_Some (sep s before after : string) :
  breakOn sep s = Some (before, after) -> s = before +:+ sep +:+ after.
Proof.
  revert before. induction s as [|c s IH]; intros before; simpl.
  - destruct (stripPrefix sep "") as [rest|] eqn:Hp; [|discriminate].
    intros [= <- <-]. rewrite append_nil_l. now apply stripPrefix_Some.
  - destruct (stripPrefix sep (String c s)) as [rest|] eqn:Hp.
    + intros [= <- <-]. rewrite append_nil_l. now apply stripPrefix_Some.
    + destruct (breakOn sep s) as [[b a]|]; [|discriminate].
      intros [= <- <-]. now rewrite append_cons, (IH b eq_refl).
Qed.

Lemma breakOn_includes (sep s : string) :
  includes s sep = match breakOn sep s with Some _ => true | None => false end.
Proof.
  induction s as [|c s IH]; rewrite includes_unfold, stripPrefix_prefix; simpl.
  - now destruct (stripPrefix sep "").
  - destruct (stripPrefix sep (String c s)); [reflexivity|].
    rewrite IH. now destruct (breakOn sep s) as [[b a]|].
Qed.

Lemma prefix_within (sep s rest : string) :
  String.prefix sep s = true -> String.prefix sep (s +:+ rest) = true.
Proof.
  revert s. induction sep as [|a sep IH]; intros s;
    [now destruct (s +:+ rest)|].
  destruct s as [|b s]; simpl; [discriminate|].
  destruct (ascii_dec a b); [apply IH | discriminate].
Qed.

(** The text before the first occurrence holds no occurrence. *)
Lemma breakOn_first (sep s before after : string) :
  sep <> "" -> breakOn sep s = Some (before, after) -> includes before sep = false.
Proof.
  intros Hsep. revert before. induction s as [|c s IH]; intros before; simpl.
  - destruct (stripPrefix sep "") as [rest|] eqn:Hp; [|discriminate].
    intros [= <- <-]. destruct sep; [congruence | reflexivity].
  - destruct (stripPrefix sep (String c s)) as [rest|] eqn:Hp.
    + intros [= <- <-]. destruct sep; [congruence | reflexivity].
    + destruct (breakOn sep s) as [[b a]|] eqn:Hb; [|discriminate].
      intros [= <- <-]. rewrite includes_unfold.
      destruct (String.prefix sep (String c b)) eqn:Hpre.
      * apply (prefix_within _ _ (sep +:+ a)) in Hpre.
        rewrite append_cons in Hpre.
        rewrite <- (breakOn_Some _ _ _ _ Hb), stripPrefix_prefix, Hp in Hpre.
        discriminate.
      * now apply IH.
Qed.

Lemma splitN_not_nil (fuel : nat) (sep s : string) : splitN fuel sep s <> [].
Proof.
  destruct fuel; simpl; [discriminate|].
  now destruct (breakOn sep s) as [[b a]|].
Qed.

Lemma joinWith_cons (sep part : string) (rest : list string) :
  rest <> [] -> joinWith sep (part :: rest) = part +:+ sep +:+ joinWith sep rest.
Proof. now destruct rest. Qed.

(** Joining the pieces gives the text back. *)
Lemma joinWith_splitN (fuel : nat) (sep s : string) :
  joinWith sep (splitN fuel sep s) = s.
Proof.
  revert s. induction fuel as [|fuel IH]; intros s; simpl; [reflexivity|].
  destruct (breakOn sep s) as [[b a]|] eqn:Hb; [|reflexivity].
  rewrite joinWith_cons by apply splitN_not_nil.
  now rewrite IH, (breakOn_Some _ _ _ _ Hb).
Qed.

(** The bound on the recursion is enough: no piece holds a separator. *)
Lemma splitN_pieces (fuel : nat) (sep s : string) :
  sep <> "" -> (String.length s <= fuel)%nat ->
  Forall (fun piece => includes piece sep = false) (splitN fuel sep s).
Proof.
  intros Hsep. revert s. induction fuel as [|fuel IH]; intros s Hlen; simpl.
  - constructor; [|constructor].
    destruct s; [|simpl in Hlen; lia]. destruct sep; [congruence | reflexivity].
  - destruct (breakOn sep s) as [[b a]|] eqn:Hb.
    + constructor; [eapply breakOn_first; eauto|].
      apply IH. apply breakOn_Some in Hb. subst s.
      rewrite !length_append in Hlen.
      destruct sep; [congruence | simpl in Hlen; lia].
    + constructor; [|constructor]. now rewrite breakOn_includes, Hb.
Qed.

Lemma split_pieces (sep s : string) :
  sep <> "" -> Forall (fun piece => includes piece sep = false) (split sep s).
Proof. intros Hsep. now apply splitN_pieces. Qed.

(** The pieces of a text, by its first separator. *)
Lemma split_first (sep s : string) :
  sep <> "" ->
  match breakOn sep s with
  | None => split sep s = [s]
  | Some (before, after) =>
      exists rest, split sep s = before :: rest /\ rest <> []
                   /\ joinWith sep rest = after
  end.
Proof.
  intros Hsep. unfold split.
  destruct (breakOn sep s) as [[b a]|] eqn:Hb.
  - destruct s as [|c s].
    + apply breakOn_Some in Hb. destruct b; [|discriminate].
      destruct sep; [congruence | discriminate].
    + cbn [String.length splitN]. rewrite Hb. eexists. split; [reflexivity|].
      split; [apply splitN_not_nil | apply joinWith_splitN].
  - destruct (String.length s); simpl; [reflexivity | now rewrite Hb].
Qed.

End Splitting.

Section Rows.

Variable trim : string -> string.
Variable range : Z.

Lemma eachRow_spec (index : nat) (cell : string) (chartData : list Val) :
  index <> 0%nat ->
  eachRow trim range index cell chartData
  = if range <=? Z.of_nat (length chartData) then chartData
    else if nonBlank (trim cell) then
      chartData ++ ranked trim (Z.of_nat (length chartData) + 1) [trim cell]
    else chartData.
Proof.
  intros Hindex. unfold eachRow.
  destruct (Nat.eqb_spec index 0) as [|_]; [contradiction|].
  destruct (range <=? Z.of_nat (length chartData)); [reflexivity|].
  cbv zeta. fold (nonBlank (trim cell)).
  destruct (nonBlank (trim cell)); [|reflexivity].
  cbn [ranked]. unfold artistOf, titleOf.
  pose proof (split_first " - " (trim cell)) as Hsplit.
  destruct (breakOn " - " (trim cell)) as [[b a]|].
  - destruct Hsplit as (rest & -> & Hrest & Hjoin); [discriminate|].
    destruct rest as [|r rest]; [contradiction|].
    cbn [length Nat.leb nth drop]. now rewrite Hjoin.
  - rewrite Hsplit by discriminate. reflexivity.
Qed.

Lemma ranked_app (rank : Z) (a b : list string) :
  ranked trim rank (a ++ b)
  = ranked trim rank a ++ ranked trim (rank + Z.of_nat (length a)) b.
Proof.
  revert rank. induction a as [|t a IH]; intros rank; simpl.
  - now rewrite Z.add_0_r.
  - rewrite IH. do 3 f_equal. lia.
Qed.

Lemma ranked_length (rank : Z) (texts : list string) :
  length (ranked trim rank texts) = length texts.
Proof. revert rank. induction texts; intros; simpl; auto. Qed.

Lemma eachRows_spec (index : nat) (cells : list string) (chartData : list Val) :
  index <> 0%nat ->
  eachRows trim range index cells chartData
  = chartData
    ++ ranked trim (Z.of_nat (length chartData) + 1)
         (take (Z.to_nat (range - Z.of_nat (length chartData)))
            (List.filter nonBlank (map trim cells))).
Proof.
  revert index chartData.
  induction cells as [|cell cells IH]; intros index chartData Hindex.
  - simpl. rewrite take_nil. simpl. now rewrite app_nil_r.
  - cbn [eachRows map List.filter]. rewrite IH by lia.
    rewrite eachRow_spec by exact Hindex.
    destruct (Z.leb_spec range (Z.of_nat (length chartData))) as [Hfull|Hroom].
    + replace (Z.to_nat (range - Z.of_nat (length chartData))) with 0%nat by lia.
      now rewrite !take_0.
    + destruct (nonBlank (trim cell)); [|reflexivity].
      rewrite length_app. cbn [ranked length].
      replace (Z.to_nat (range - Z.of_nat (length chartData)))
        with (S (Z.to_nat (range - Z.of_nat (length chartData + 1)))) by lia.
      cbn [take ranked]. rewrite <- app_assoc. cbn [app].
      do 3 f_equal. lia.
Qed.

Lemma scrapeKworbChart_spec (cells : list string) :
  scrapeKworbChart trim range (PageRows cells)
  = match keptTexts trim range cells with
    | [] => Throw (Error "No chart data found. Website structure might have changed.")
    | texts => Ok (ranked trim 1 texts)
    end.
Proof.
  unfold scrapeKworbChart, keptTexts.
  assert (eachRows trim range 0 cells []
          = ranked trim 1 (take (Z.to_nat range)
                             (List.filter nonBlank (map trim (tail cells)))))
    as ->.
  { destruct cells as [|header cells];
      [cbn [tail map List.filter eachRows]; now rewrite take_nil|].
    cbn [eachRows tail]. unfold eachRow at 1. cbn [Nat.eqb].
    rewrite eachRows_spec by lia. cbn [length app Z.of_nat].
    now rewrite Z.sub_0_r. }
  now destruct (take _ _).
Qed.

End Rows.

Section ScrapedChart.

Variable trim : string -> string.

Lemma ranked_rawText (rank : Z) (texts : list string) :
  map (fun entry => field entry "rawText") (ranked trim rank texts)
  = map VStr texts.
Proof.
  revert rank. induction texts as [|text texts IH]; intros rank;
    [reflexivity|].
  cbn [ranked map]. now rewrite IH.
Qed.

Lemma ranked_lookup (rank : Z) (texts : list string) (i : nat) (entry : Val) :
  ranked trim rank texts !! i = Some entry ->
  exists text, texts !! i = Some text
    /\ entry = chartRow (rank + Z.of_nat i) (artistOf trim text)
                 (titleOf trim text) text.
Proof.
  revert rank i. induction texts as [|text texts IH]; intros rank i;
    [discriminate|].
  destruct i as [|i]; cbn [ranked lookup list_lookup].
  - intros [= <-]. exists text. split; [reflexivity|]. now rewrite Z.add_0_r.
  - intros (t & Ht & ->)%IH. exists t. split; [exact Ht|]. f_equal. lia.
Qed.

Lemma ranked_pure (rank : Z) (texts : list string) :
  pureJson (VArr (ranked trim rank texts)) = true.
Proof.
  revert rank. induction texts as [|text texts IH]; intros rank;
    [reflexivity|].
  specialize (IH (rank + 1)). cbn [ranked]. simpl in *. exact IH.
Qed.

Lemma ranked_entries (rank : Z) (texts : list string) :
  Forall (fun item => chartEntry item = true) (ranked trim rank texts).
Proof.
  revert rank. induction texts as [|text texts IH]; intros rank;
    constructor; [reflexivity | apply IH].
Qed.

Lemma scraped_is_ranked (range : Z) (page : PageReply) (chartData : list Val) :
  scrapeKworbChart trim range page = Ok chartData ->
  exists cells, page = PageRows cells
    /\ keptTexts trim range cells <> []
    /\ chartData = ranked trim 1 (keptTexts trim range cells).
Proof.
  destruct page as [e|cells]; [discriminate|].
  rewrite scrapeKworbChart_spec.
  destruct (keptTexts trim range cells) as [|text texts] eqn:Hkept;
    [discriminate|].
  intros [= <-]. exists cells. rewrite Hkept. now repeat split.
Qed.

End ScrapedChart.

Section ScraperFacts.

(** X20.  The scraper skips the first row of the page and every row
    whose second cell is blank once trimmed, and keeps the first
    [CHART_RANGE] of the other rows in page order, each with its trimmed
    text as [rawText].  It fails with "No chart data found" exactly when
    it keeps nothing: on a page without such rows, and whenever
    [CHART_RANGE] is not positive. *)
Theorem scraper_keeps_first_rows (trim : string -> string) (range : Z)
    (cells : list string) :
  let texts := keptTexts trim range cells in
  let scraped := scrapeKworbChart trim range (PageRows cells) in
  (texts = [] ->
   scraped
   = Throw (Error "No chart data found. Website structure might have changed."))
  /\ (texts <> [] ->
      exists chartData, scraped = Ok chartData
        /\ map (fun entry => field entry "rawText") chartData = map VStr texts)
  /\ (range <= 0 -> texts = []).
Proof.
  cbv zeta. rewrite scrapeKworbChart_spec. split; [|split].
  - now intros ->.
  - destruct (keptTexts trim range cells) as [|text texts] eqn:Hkept;
      [now intros []|].
    intros _. eexists. split; [reflexivity|]. apply ranked_rawText.
  - intros Hrange. unfold keptTexts.
    replace (Z.to_nat range) with 0%nat by lia. apply take_0.
Qed.

(** The sample page: three rows are kept, the header and the blank row
    are not. *)
Lemma scraper_keeps_first_rows_witness :
  exists chartData,
    scrapeKworbChart trimSpaces 30 (PageRows chartPage) = Ok chartData
    /\ map (fun entry => field entry "rawText") chartData
       = [ VStr "The Weeknd - Blinding Lights"; VStr "Intro";
           VStr "Tyler - See You Again - Remix" ].
Proof.
  destruct (scraper_keeps_first_rows trimSpaces 30 chartPage) as (_ & Hkept & _).
  apply Hkept. vm_compute. discriminate.
Defined.

(** X21.  A scraped chart is never empty, has at most [CHART_RANGE]
    entries, and its ranks count the kept rows from 1 without a gap: the
    entry at position [i] has rank [i + 1], whatever rows were skipped. *)
Theorem scraped_ranks_are_contiguous (trim : string -> string) (range : Z)
    (page : PageReply) (chartData : list Val) :
  scrapeKworbChart trim range page = Ok chartData ->
  chartData <> []
  /\ Z.of_nat (length chartData) <= range
  /\ forall (i : nat) (entry : Val),
       chartData !! i = Some entry -> field entry "rank" = VNum (Z.of_nat i + 1).
Proof.
  intros (cells & _ & Hne & ->)%scraped_is_ranked. split; [|split].
  - destruct (keptTexts trim range cells); [contradiction | discriminate].
  - rewrite ranked_length. unfold keptTexts in *. rewrite length_take.
    destruct (Z.to_nat range) eqn:Hrange; [now rewrite take_0 in Hne | lia].
  - intros i entry (text & _ & ->)%ranked_lookup. cbn. f_equal. lia.
Qed.

(** On the sample page the row after the blank one has rank 2. *)
Lemma scraped_ranks_witness :
  exists entry,
    ranked trimSpaces 1 (keptTexts trimSpaces 30 chartPage) !! 1%nat = Some entry
    /\ field entry "rank" = VNum 2.
Proof.
  eexists. split; [vm_compute; reflexivity|].
  destruct (scraped_ranks_are_contiguous trimSpaces 30 (PageRows chartPage)
              (ranked trimSpaces 1 (keptTexts trimSpaces 30 chartPage)))
    as (_ & _ & Hrank); [vm_compute; reflexivity|].
  apply (Hrank 1%nat). vm_compute. reflexivity.
Defined.

(** X22.  The artist of a scraped entry is the trimmed text before the
    first [" - "] of its row and the title is the trimmed text after it,
    further separators included; a row without a separator gives the
    artist "Unknown Artist" and the whole text as title. *)
Theorem scraper_splits_at_first_separator (trim : string -> string) (range : Z)
    (page : PageReply) (chartData : list Val) (i : nat) (entry : Val) :
  scrapeKworbChart trim range page = Ok chartData ->
  chartData !! i = Some entry ->
  exists text, field entry "rawText" = VStr text
    /\ (includes text " - " = false ->
        field entry "artist" = VStr "Unknown Artist"
        /\ field entry "title" = VStr text)
    /\ (includes text " - " = true ->
        exists before after, text = before +:+ " - " +:+ after
          /\ includes before " - " = false
          /\ field entry "artist" = VStr (trim before)
          /\ field entry "title" = VStr (trim after)).
Proof.
  intros (cells & _ & _ & ->)%scraped_is_ranked (text & _ & ->)%ranked_lookup.
  exists text. split; [reflexivity|].
  unfold artistOf, titleOf. rewrite breakOn_includes.
  destruct (breakOn " - " text) as [[before after]|] eqn:Hbreak.
  - split; [discriminate|]. intros _. exists before, after.
    split; [now apply breakOn_Some|].
    split; [now apply (breakOn_first " - " text before after)|].
    split; reflexivity.
  - split; [|discriminate]. intros _. split; reflexivity.
Qed.

(** The last row of the sample page: the title keeps the second
    separator. *)
Lemma scraper_splits_witness :
  exists before after,
    "Tyler - See You Again - Remix" = before +:+ " - " +:+ after
    /\ includes before " - " = false
    /\ VStr "Tyler" = VStr (trimSpaces before)
    /\ VStr "See You Again - Remix" = VStr (trimSpaces after).
Proof.
  destruct (scraper_splits_at_first_separator trimSpaces 30 (PageRows chartPage)
              (ranked trimSpaces 1 (keptTexts trimSpaces 30 chartPage)) 2
              (chartRow 3 "Tyler" "See You Again - Remix"
                 "Tyler - See You Again - Remix"))
    as (text & Hraw & _ & Hsplit); [vm_compute; reflexivity..|].
  injection Hraw as <-. apply Hsplit. vm_compute. reflexivity.
Defined.

End ScraperFacts.

Section ChartStage.

(** X23.  The chart stage hands a usable chart to the credits stage: when
    it returns, the chart it has written is read back unchanged by the
    loader of the credits stage, which can then list every entry in its
    prompt and send its one request.  When fetching or reading the page
    fails it exits with code 1 and writes no file. *)
Theorem chart_stage_feeds_credits_stage (trim : string -> string) (range : Z)
    (dataDir today now : string) (mkdir : option JsError) (page : PageReply)
    (files : Files) :
  let run := Kworb.main trim range dataDir today now mkdir page files in
  (forall chartData, run.1 = Returned chartData ->
     scrapeKworbChart trim range page = Ok chartData
     /\ loadLatestChartData dataDir run.2 = Ok (VArr chartData)
     /\ forall api : PostApi,
          length (requestCreditsCollection api (VArr chartData)).2 = 1%nat)
  /\ ((forall chartData, run.1 <> Returned chartData) ->
      run.1 = Exited 1 /\ run.2 = files).
Proof.
  cbv zeta. unfold Kworb.main.
  destruct mkdir as [e|]; run_bind; cbn [fst snd].
  { split; [discriminate | now intros _]. }
  destruct (scrapeKworbChart trim range page) as [chartData|e] eqn:Hscrape;
    run_bind; cbn [fst snd].
  2:{ split; [discriminate | now intros _]. }
  split.
  - intros chart [= <-]. split; [reflexivity|].
    apply scraped_is_ranked in Hscrape as (cells & _ & Hne & ->).
    split.
    + transitivity (Ok (jsonRoundTrip (VArr (ranked trim 1 (keptTexts trim range cells))))).
      * unfold saveChartData, loadLatestChartData. cbn [snd].
        now rewrite readFile_written.
      * now rewrite (jsonRoundTrip_pure _ (ranked_pure trim 1 _)).
    + intros api.
      pose proof (ranked_entries trim 1 (keptTexts trim range cells)) as Hall.
      destruct (ranked trim 1 (keptTexts trim range cells)) as [|first rest] eqn:Hchart.
      { destruct (keptTexts trim range cells); [contradiction | discriminate]. }
      destruct (promptFor_entries _ _ Hall) as (l & r & a & t & _ & Hprompt).
      unfold requestCreditsCollection. now rewrite Hprompt.
  - intros Hnever. now destruct (Hnever chartData).
Qed.

(** The sample page, scraped into an empty directory. *)
Lemma chart_stage_witness :
  loadLatestChartData "./data"
    (Kworb.main trimSpaces 30 "./data" "2024-05-06T00:00:01.000Z"
       "2024-05-06T00:00:01.002Z" None (PageRows chartPage) ∅).2
  = Ok (VArr (ranked trimSpaces 1 (keptTexts trimSpaces 30 chartPage))).
Proof.
  destruct (chart_stage_feeds_credits_stage trimSpaces 30 "./data"
              "2024-05-06T00:00:01.000Z" "2024-05-06T00:00:01.002Z" None
              (PageRows chartPage) ∅) as [Hreturned _].
  apply Hreturned. vm_compute. reflexivity.
Defined.

End ChartStage.

(** ** The whole pipeline *)

Section Pipeline.

Ltac stage_fails children :=
  destruct (children _); cbn;
  (split; [reflexivity | split; [split; discriminate | reflexivity]]).

Lemma runScript_spec (children : Children) (scriptPath description : string)
    (started : list string) :
  runScript children scriptPath description started
  = (if exitedCleanly children scriptPath then Ok tt
     else match children scriptPath with
          | Closed code =>
              Throw (Error ("Script failed with exit code " +:+ codeText code))
          | Failed e => Throw e
          end,
     started ++ [scriptPath]).
Proof.
  unfold runScript, exitedCleanly.
  now destruct (children scriptPath) as [[[| |]|]|].
Qed.

(** X24.  The pipeline starts its four stages in order and stops at the
    first one whose child does not close with exit code 0 (a non-zero
    code, an end by signal, or a failure to start): that stage is the last
    one started and the pipeline exits with code 1.  It completes exactly
    when all four stages exit with code 0. *)
Theorem pipeline_stops_at_first_failure (children : Children) :
  (RunAll.main children).2 = upToFirstFailure (exitedCleanly children) stages
  /\ ((RunAll.main children).1 = Returned tt <->
      forallb (exitedCleanly children) stages = true)
  /\ ((RunAll.main children).1 <> Returned tt ->
      (RunAll.main children).1 = Exited 1).
Proof.
  unfold RunAll.main. rewrite !runScript_spec. cbn [stages upToFirstFailure forallb app].
  destruct (exitedCleanly children "./scripts/scrape-kworb.js");
    [|stage_fails children].
  destruct (exitedCleanly children "./scripts/trigger-manus-agent.js");
    [|stage_fails children].
  destruct (exitedCleanly children "./scripts/get-youtube-links.js");
    [|stage_fails children].
  destruct (exitedCleanly children "./scripts/generate-html.js");
    [|stage_fails children].
  cbn. repeat split. intros H. now destruct H.
Qed.

(** When the credits stage exits with code 1, the two stages after it are
    not started. *)
Lemma pipeline_stops_witness :
  RunAll.main creditsFail
  = (Exited 1, ["./scripts/scrape-kworb.js"; "./scripts/trigger-manus-agent.js"]).
Proof.
  destruct (pipeline_stops_at_first_failure creditsFail) as (Hstarted & _ & Hexit).
  rewrite (surjective_pairing (RunAll.main creditsFail)), Hstarted, Hexit;
    [reflexivity | vm_compute; discriminate].
Defined.

End Pipeline.

(** ** The player of the generated page *)

Section PlayerPosition.

Variable tracks : nat.
Variable display : Z -> option JsError.

Lemma displayCurrentTrack_inChart (p : ChartPlayer) :
  inChart tracks p -> inChart tracks (displayCurrentTrack tracks display p).2.
Proof.
  intros (Hlow & Hhigh & Hreads). unfold displayCurrentTrack.
  destruct (Z.leb_spec (Z.of_nat tracks) (currentIndex p)); cbn [snd].
  - now repeat split.
  - repeat split; cbn [currentIndex reads]; auto.
    apply Forall_app. split; [exact Hreads|]. repeat constructor; lia.
Qed.

Lemma moved_inChart (p : ChartPlayer) (index : Z) :
  inChart tracks p -> 0 <= index < Z.of_nat tracks ->
  inChart tracks (displayCurrentTrack tracks display (mkPlayer index (reads p))).2.
Proof.
  intros (_ & _ & Hreads) Hindex. apply displayCurrentTrack_inChart.
  repeat split; cbn [currentIndex reads]; auto; lia.
Qed.

Lemma nextTrack_inChart (p : ChartPlayer) :
  inChart tracks p -> inChart tracks (nextTrack tracks display p).2.
Proof.
  intros Hp. unfold nextTrack.
  destruct (Z.ltb_spec (currentIndex p) (Z.of_nat tracks - 1)); [|exact Hp].
  apply moved_inChart; [exact Hp|]. destruct Hp as (Hlow & _). lia.
Qed.

Lemma previousTrack_inChart (p : ChartPlayer) :
  inChart tracks p -> inChart tracks (previousTrack tracks display p).2.
Proof.
  intros Hp. unfold previousTrack.
  destruct (Z.ltb_spec 0 (currentIndex p)); [|exact Hp].
  apply moved_inChart; [exact Hp|]. destruct Hp as (Hlow & Hhigh & _). lia.
Qed.

Lemma goToTrack_inChart (index : Z) (p : ChartPlayer) :
  inChart tracks p -> inChart tracks (goToTrack tracks display index p).2.
Proof.
  intros Hp. unfold goToTrack.
  destruct (Z.leb_spec 0 index); cbn [andb]; [|exact Hp].
  destruct (Z.ltb_spec index (Z.of_nat tracks)); [|exact Hp].
  apply moved_inChart; [exact Hp | lia].
Qed.

Lemma autoPlayTick_inChart (p : ChartPlayer) :
  inChart tracks p -> inChart tracks (autoPlayTick tracks display p).2.
Proof.
  intros Hp. unfold autoPlayTick.
  pose proof (nextTrack_inChart p Hp) as Hnext.
  destruct (nextTrack tracks display p) as [[e|] q]; cbn [snd] in *;
    [exact Hnext|].
  destruct (Z.eqb_spec (currentIndex q) (Z.of_nat tracks - 1)) as [Hlast|];
    [|exact Hnext].
  destruct Hnext as (Hlow & Hhigh & Hreads).
  apply displayCurrentTrack_inChart.
  repeat split; cbn [currentIndex reads]; auto; lia.
Qed.

Lemma keydown_inChart (key : string) (p : ChartPlayer) :
  inChart tracks p -> inChart tracks (keydown tracks display key p).2.
Proof.
  intros Hp. unfold keydown.
  destruct (_ || _); [now apply previousTrack_inChart|].
  destruct (_ || _); [now apply nextTrack_inChart|].
  destruct (String.eqb key "Home"); [now apply goToTrack_inChart|].
  destruct (String.eqb key "End"); [now apply goToTrack_inChart | exact Hp].
Qed.

Lemma handle_inChart (p : ChartPlayer) (ev : Event) :
  inChart tracks p -> inChart tracks (handle tracks display p ev).
Proof.
  intros Hp. destruct ev as [key|i|]; cbn [handle].
  - now apply keydown_inChart.
  - now apply goToTrack_inChart.
  - now apply autoPlayTick_inChart.
Qed.

Lemma fold_handle_inChart (events : list Event) (p : ChartPlayer) :
  inChart tracks p -> inChart tracks (fold_left (handle tracks display) events p).
Proof.
  revert p. induction events as [|ev events IH]; intros p Hp; [exact Hp|].
  cbn [fold_left]. apply IH, handle_inChart, Hp.
Qed.

Lemma constructed_inChart : inChart tracks (constructed tracks display).
Proof.
  apply displayCurrentTrack_inChart.
  repeat split; cbn [currentIndex reads]; auto; lia.
Qed.

Lemma displayCurrentTrack_index (p : ChartPlayer) :
  currentIndex (displayCurrentTrack tracks display p).2 = currentIndex p.
Proof. unfold displayCurrentTrack. now destruct (_ <=? _). Qed.

Lemma displayCurrentTrack_quiet (p : ChartPlayer) :
  (forall i, display i = None) -> (displayCurrentTrack tracks display p).1 = None.
Proof. intros Hquiet. unfold displayCurrentTrack. destruct (_ <=? _); cbn; auto. Qed.

(** One tick of auto-play on a page that displays every track. *)
Lemma autoPlayTick_index (p : ChartPlayer) :
  (forall i, display i = None) -> inChart tracks p ->
  currentIndex (autoPlayTick tracks display p).2
  = if currentIndex p + 1 <? Z.of_nat tracks - 1 then currentIndex p + 1 else 0.
Proof.
  intros Hquiet (Hlow & Hhigh & _). unfold autoPlayTick, nextTrack.
  destruct (Z.ltb_spec (currentIndex p) (Z.of_nat tracks - 1)) as [Hmove|Hstay].
  - pose proof (displayCurrentTrack_quiet (mkPlayer (currentIndex p + 1) (reads p)) Hquiet) as Hq.
    pose proof (displayCurrentTrack_index (mkPlayer (currentIndex p + 1) (reads p))) as Hi.
    destruct (displayCurrentTrack tracks display _) as [r q]; cbn [fst snd] in *.
    subst r. cbn [currentIndex] in Hi. rewrite Hi.
    destruct (Z.eqb_spec (currentIndex p + 1) (Z.of_nat tracks - 1)) as [Hlast|Hnot].
    + rewrite displayCurrentTrack_index. cbn [currentIndex].
      destruct (Z.ltb_spec (currentIndex p + 1) (Z.of_nat tracks - 1)); [lia | reflexivity].
    + cbn [snd]. rewrite Hi.
      destruct (Z.ltb_spec (currentIndex p + 1) (Z.of_nat tracks - 1)); [reflexivity | lia].
  - destruct (Z.eqb_spec (currentIndex p) (Z.of_nat tracks - 1)) as [Hlast|Hnot].
    + rewrite displayCurrentTrack_index. cbn [currentIndex].
      destruct (Z.ltb_spec (currentIndex p + 1) (Z.of_nat tracks - 1)); [lia | reflexivity].
    + cbn [snd].
      destruct (Z.ltb_spec (currentIndex p + 1) (Z.of_nat tracks - 1)); lia.
Qed.

Lemma after_snoc (events : list Event) (ev : Event) :
  after tracks display (events ++ [ev])
  = handle tracks display (after tracks display events) ev.
Proof. unfold after. now rewrite fold_left_app. Qed.

Lemma after_inChart (events : list Event) :
  inChart tracks (after tracks display events).
Proof. apply fold_handle_inChart, constructed_inChart. Qed.

End PlayerPosition.

Section PlayerFacts.

(** X25.  Whatever keys are pressed, dots are clicked and auto-play ticks
    arrive, and whatever goes wrong while a track is put on display, the
    position of the player stays a track of the chart (position 0 when
    the chart is empty), and the player reads the chart only at positions
    that hold a track. *)
Theorem player_position_stays_in_chart (tracks : nat)
    (display : Z -> option JsError) (events : list Event) :
  let p := after tracks display events in
  0 <= currentIndex p
  /\ (currentIndex p < Z.of_nat tracks \/ (tracks = 0%nat /\ currentIndex p = 0))
  /\ Forall (fun i => 0 <= i < Z.of_nat tracks) (reads p).
Proof.
  cbv zeta.
  destruct (after_inChart tracks display events) as (Hlow & Hhigh & Hreads).
  split; [exact Hlow|]. split; [|exact Hreads].
  destruct tracks as [|n]; [right|left]; [split; [reflexivity|] |]; lia.
Qed.

(** X26.  On a page that displays every track, auto-play never leaves
    the player on the last track of a chart of two or more tracks: the
    tick that reaches the last track goes on to the first at once, so
    auto-play started at the first track cycles through all tracks but
    the last. *)
Theorem autoplay_skips_last_track (tracks : nat) (display : Z -> option JsError) :
  (2 <= tracks)%nat -> (forall i, display i = None) ->
  (forall events,
     currentIndex (after tracks display (events ++ [AutoPlay]))
     <> Z.of_nat tracks - 1)
  /\ (forall k : nat,
       currentIndex (after tracks display (repeat AutoPlay k))
       = Z.of_nat k mod (Z.of_nat tracks - 1)).
Proof.
  intros Htracks Hquiet. split.
  - intros events. rewrite after_snoc. cbn [handle].
    rewrite autoPlayTick_index by (auto using after_inChart).
    destruct (Z.ltb_spec (currentIndex (after tracks display events) + 1)
                (Z.of_nat tracks - 1)); lia.
  - induction k as [|k IH].
    + cbn [repeat]. unfold after, constructed. cbn [fold_left].
      now rewrite displayCurrentTrack_index.
    + change (repeat AutoPlay (S k)) with (AutoPlay :: repeat AutoPlay k).
      rewrite repeat_cons, after_snoc. cbn [handle].
      rewrite autoPlayTick_index by (auto using after_inChart).
      rewrite IH. set (m := Z.of_nat tracks - 1).
      assert (0 < m) as Hm by (unfold m; lia).
      pose proof (Z.mod_pos_bound (Z.of_nat k) m Hm) as Hbound.
      pose proof (Z.div_mod (Z.of_nat k) m ltac:(lia)) as Hdiv.
      destruct (Z.ltb_spec (Z.of_nat k mod m + 1) m).
      * apply (Z.mod_unique_pos _ _ (Z.of_nat k / m)); lia.
      * apply (Z.mod_unique_pos _ _ (Z.of_nat k / m + 1)); lia.
Qed.

(** A chart of three tracks: the third tick is back at the second track,
    and no tick rests on the third. *)
Lemma autoplay_skips_witness :
  currentIndex (after 3 (fun _ => None) (repeat AutoPlay 3)) = 1.
Proof.
  destruct (autoplay_skips_last_track 3 (fun _ => None)) as [_ Hcycle];
    [lia | reflexivity |].
  rewrite Hcycle. reflexivity.
Defined.

End PlayerFacts.
